(** * Drive client: a model of the React view-model in [App]

    The component is embedded as an event-driven transition system.  Its [useState] cells form the record [State]; every
    handler is a computation in a small state-and-exception monad [M] that
    threads the component (state, refs, the effects it has emitted and the
    requests it is awaiting).

    An [async] handler is split at its [await]: the part that runs
    synchronously when the handler is called keeps the source's name
    ([fetchItems], [handleLogout], ...), and the continuation that runs when
    the awaited promise settles is [resume] at the corresponding [Task].
    A call of an [async] function that is not awaited therefore only
    registers a task; the task is settled later, by a step of its own, with
    whatever the server answered.  React (18 and later) batches the state
    updates of one such run into one render; [dispatch] runs the [useEffect]
    whose dependencies changed after it.

    Console logging and the DOM bookkeeping that the state does not depend
    on (the reset of the visible file input) are left out.  Of
    [downloadFile], which touches nothing but the browser and the toasts,
    the choice of the file name is modelled. *)

From Stdlib Require Import ZArith QArith String Ascii List Lia OrdersEx.
From stdpp Require Import base decidable option list strings numbers sorting.

Local Open Scope string_scope.
Local Open Scope list_scope.
Local Open Scope Z_scope.
Local Open Scope stdpp_scope.

(** ** Values *)

(** Identifiers as the backend sends them: a number or a string; [Null] is
    JavaScript's [null], the parent of the top-level folders. *)
Inductive Id : Type :=
| Null
| IdNum (n : Z)
| IdStr (s : string).

#[global] Instance Id_eq_dec : EqDecision Id.
Proof. solve_decision. Defined.

(** [a === b] on identifiers. *)
Definition strict_eq (a b : Id) : bool := bool_decide (a = b).

Module User.
(** [obj] is the identity of the response object the record came from:
    React compares dependencies with [Object.is]. *)
Record t : Type := mk { id : Id; name : string; email : string; obj : nat }.
End User.

#[global] Instance User_eq_dec : EqDecision User.t.
Proof. solve_decision. Defined.

Module Crumb.
Record t : Type := mk { id : Id; name : string }.
End Crumb.

#[global] Instance Crumb_eq_dec : EqDecision Crumb.t.
Proof. solve_decision. Defined.

(** A folder or file record of a listing response, before it is tagged. *)
Module Entry.
Record t : Type := mk { id : Id; name : string; size : option Z }.
End Entry.

Inductive ItemType : Type := folder | file.

#[global] Instance ItemType_eq_dec : EqDecision ItemType.
Proof. solve_decision. Defined.

Module Item.
Record t : Type :=
  mk { id : Id; name : string; type : ItemType; size : option Z }.
End Item.

#[global] Instance Item_eq_dec : EqDecision Item.t.
Proof. solve_decision. Defined.

(** [{ ...f, type: ty }] *)
Definition tag (ty : ItemType) (f : Entry.t) : Item.t :=
  Item.mk (Entry.id f) (Entry.name f) ty (Entry.size f).

(** The [{ id: null, name: 'Root' }] sentinel. *)
Definition root : Crumb.t := Crumb.mk Null "Root".

(** ** Component state: the [useState] cells of [App] *)

Record State : Type := mkState {
  user : option User.t;
  isAuthenticating : bool;
  email : string;
  password : string;
  name : string;
  isLogin : bool;
  items : list Item.t;
  fileToUpload : option string;
  folderName : string;
  isLoading : bool;
  currentFolderId : Id;
  breadcrumbPath : list Crumb.t
}.

Definition initial_state : State :=
  {| user := None; isAuthenticating := true; email := ""; password := "";
     name := ""; isLogin := true; items := []; fileToUpload := None;
     folderName := ""; isLoading := false; currentFolderId := Null;
     breadcrumbPath := [root] |}.

(** ** Effects, requests and awaited tasks *)

Inductive Req : Type :=
| GetFolders (parentId : Id)
| GetFiles (folderId : Id)
| GetProfile
| PostAuth (url : string)
| PostLogout
| PostUpload (fileName : string) (folderId : Id)
| PostFolder (folderName : string) (parentId : Id)
| Delete (endpoint : string) (id : Id)
| PutFile (id : Id).

Inductive ToastKind : Type := Success | Error | Info | Warn.

Inductive Effect : Type :=
| Request (r : Req)
| Toast (k : ToastKind) (msg : string)
| Confirm (msg : string) (answer : bool).

#[global] Instance Req_eq_dec : EqDecision Req.
Proof. solve_decision. Defined.
#[global] Instance ToastKind_eq_dec : EqDecision ToastKind.
Proof. solve_decision. Defined.
#[global] Instance Effect_eq_dec : EqDecision Effect.
Proof. solve_decision. Defined.

(** What a handler is waiting for after its [await], with the values its
    closure captured before it. *)
Inductive Task : Type :=
| AwaitFetch (folderId : Id)
| AwaitLogout (showToast : bool)
| AwaitProfile
| AwaitAuth (isLogin : bool)
| AwaitUpload (fileName : string) (targetFolderId : Id)
| AwaitCreate (folderName : string) (targetParentId : Id)
| AwaitDelete (isFolder : bool) (itemName : string) (folderToRefetch : Id)
| AwaitUpdate (folderToRefetch : Id).

#[global] Instance Task_eq_dec : EqDecision Task.
Proof. solve_decision. Defined.

(** What can be thrown: an axios rejection (with the response's status and
    [data.message] when there is a response), a reference to an identifier
    that is not declared, a [RangeError] of the runtime, or an [Error] the
    code raises itself. *)
Inductive Exn : Type :=
| AxiosError (status : option Z) (message : option string)
| ReferenceError (ident : string)
| RangeError (msg : string)
| JsError (msg : string).

(** [err.response?.status] *)
Definition response_status (err : Exn) : option Z :=
  match err with AxiosError st _ => st | _ => None end.

(** [err.response?.status === code] *)
Definition status_is (err : Exn) (code : Z) : bool :=
  match response_status err with
  | Some status => status =? code
  | None => false
  end.

Arguments status_is : simpl never.

(** [err.response?.data?.message || fallback] *)
Definition message_or (err : Exn) (fallback : string) : string :=
  match err with
  | AxiosError _ (Some m) => if bool_decide (m = "") then fallback else m
  | _ => fallback
  end.

(** The [data] of a listing response, as [fetchItems] tells them apart:
    an array, an object with an array under [folders], anything else. *)
Inductive ListData : Type :=
| DataArray (l : list Entry.t)
| DataNested (l : list Entry.t)
| DataOther.

Inductive Reply (A : Type) : Type :=
| Resolved (data : A)
| Rejected (err : Exn).
Arguments Resolved {A} data.
Arguments Rejected {A} err.

(** The component instance: state, the two refs, the effects emitted so far
    (oldest first) and the requests in flight.  [updateFileInputRef] holds,
    for the hidden input that exists, the [currentFolderId] captured by the
    [handleActualFileUpdate] closure installed as its [onchange]. *)
Record World : Type := mkWorld {
  st : State;
  updateFileInputRef : option Id;
  fileToUpdateIdRef : Id;
  out : list Effect;
  pending : list Task
}.

(** ** The handler monad *)

Inductive Completion (A : Type) : Type :=
| Normal (a : A)
| Throw (err : Exn).
Arguments Normal {A} a.
Arguments Throw {A} err.

Definition M (A : Type) : Type := World → Completion A * World.

Definition ret {A} (a : A) : M A := λ w, (Normal a, w).

Definition bind {A B} (m : M A) (k : A → M B) : M B :=
  λ w, match m w with
       | (Normal a, w') => k a w'
       | (Throw err, w') => (Throw err, w')
       end.

Definition throw {A} (err : Exn) : M A := λ w, (Throw err, w).

#[global] Instance M_ret : MRet M := @ret.
#[global] Instance M_bind : MBind M := λ A B k m, bind m k.

(** [try { body } catch (err) { handler err }] *)
Definition try_catch {A} (body : M A) (handler : Exn → M A) : M A :=
  λ w, match body w with
       | (Normal a, w') => (Normal a, w')
       | (Throw err, w') => handler err w'
       end.

(** [try { body } finally { fin }] *)
Definition try_finally {A} (body : M A) (fin : M unit) : M A :=
  λ w, match body w with
       | (c, w') =>
           match fin w' with
           | (Normal _, w'') => (c, w'')
           | (Throw err, w'') => (Throw err, w'')
           end
       end.

Definition when (b : bool) (m : M unit) : M unit := if b then m else ret tt.

(** [await] of a promise that has settled with [r]. *)
Definition await {A} (r : Reply A) : M A :=
  match r with
  | Resolved d => ret d
  | Rejected err => throw err
  end.

Definition modify (f : State → State) : M unit :=
  λ w, (Normal tt, mkWorld (f (st w)) (updateFileInputRef w)
                     (fileToUpdateIdRef w) (out w) (pending w)).

Definition get : M State := λ w, (Normal (st w), w).

Definition emit (e : Effect) : M unit :=
  λ w, (Normal tt, mkWorld (st w) (updateFileInputRef w)
                     (fileToUpdateIdRef w) (out w ++ [e]) (pending w)).

(** Register the continuation of an [async] function at its [await]. *)
Definition suspend (t : Task) : M unit :=
  λ w, (Normal tt, mkWorld (st w) (updateFileInputRef w)
                     (fileToUpdateIdRef w) (out w) (pending w ++ [t])).

Definition set_updateFileInputRef (v : option Id) : M unit :=
  λ w, (Normal tt, mkWorld (st w) v (fileToUpdateIdRef w) (out w) (pending w)).

Definition set_fileToUpdateIdRef (v : Id) : M unit :=
  λ w, (Normal tt, mkWorld (st w) (updateFileInputRef w) v (out w) (pending w)).

Definition get_world : M World := λ w, (Normal w, w).

Definition toast (k : ToastKind) (msg : string) : M unit := emit (Toast k msg).
Definition request (r : Req) : M unit := emit (Request r).

(** The world a computation leaves; an exception that escapes an [async]
    function rejects its promise and nobody observes it. *)
Definition run {A} (m : M A) (w : World) : World := snd (m w).

(** ** State setters *)

Definition setUser (v : option User.t) : M unit :=
  modify (λ s, mkState v (isAuthenticating s) (email s) (password s) (name s)
    (isLogin s) (items s) (fileToUpload s) (folderName s) (isLoading s)
    (currentFolderId s) (breadcrumbPath s)).

Definition setIsAuthenticating (v : bool) : M unit :=
  modify (λ s, mkState (user s) v (email s) (password s) (name s)
    (isLogin s) (items s) (fileToUpload s) (folderName s) (isLoading s)
    (currentFolderId s) (breadcrumbPath s)).

Definition setEmail (v : string) : M unit :=
  modify (λ s, mkState (user s) (isAuthenticating s) v (password s) (name s)
    (isLogin s) (items s) (fileToUpload s) (folderName s) (isLoading s)
    (currentFolderId s) (breadcrumbPath s)).

Definition setPassword (v : string) : M unit :=
  modify (λ s, mkState (user s) (isAuthenticating s) (email s) v (name s)
    (isLogin s) (items s) (fileToUpload s) (folderName s) (isLoading s)
    (currentFolderId s) (breadcrumbPath s)).

Definition setName (v : string) : M unit :=
  modify (λ s, mkState (user s) (isAuthenticating s) (email s) (password s) v
    (isLogin s) (items s) (fileToUpload s) (folderName s) (isLoading s)
    (currentFolderId s) (breadcrumbPath s)).

Definition setIsLogin (v : bool) : M unit :=
  modify (λ s, mkState (user s) (isAuthenticating s) (email s) (password s)
    (name s) v (items s) (fileToUpload s) (folderName s) (isLoading s)
    (currentFolderId s) (breadcrumbPath s)).

Definition setItems (v : list Item.t) : M unit :=
  modify (λ s, mkState (user s) (isAuthenticating s) (email s) (password s)
    (name s) (isLogin s) v (fileToUpload s) (folderName s) (isLoading s)
    (currentFolderId s) (breadcrumbPath s)).

Definition setFileToUpload (v : option string) : M unit :=
  modify (λ s, mkState (user s) (isAuthenticating s) (email s) (password s)
    (name s) (isLogin s) (items s) v (folderName s) (isLoading s)
    (currentFolderId s) (breadcrumbPath s)).

Definition setFolderName (v : string) : M unit :=
  modify (λ s, mkState (user s) (isAuthenticating s) (email s) (password s)
    (name s) (isLogin s) (items s) (fileToUpload s) v (isLoading s)
    (currentFolderId s) (breadcrumbPath s)).

Definition setIsLoading (v : bool) : M unit :=
  modify (λ s, mkState (user s) (isAuthenticating s) (email s) (password s)
    (name s) (isLogin s) (items s) (fileToUpload s) (folderName s) v
    (currentFolderId s) (breadcrumbPath s)).

Definition setCurrentFolderId (v : Id) : M unit :=
  modify (λ s, mkState (user s) (isAuthenticating s) (email s) (password s)
    (name s) (isLogin s) (items s) (fileToUpload s) (folderName s)
    (isLoading s) v (breadcrumbPath s)).

(** [setBreadcrumbPath] is called with a value and with an updater
    [prevPath => ...]; the updater form covers both. *)
Definition setBreadcrumbPath (f : list Crumb.t → list Crumb.t) : M unit :=
  modify (λ s, mkState (user s) (isAuthenticating s) (email s) (password s)
    (name s) (isLogin s) (items s) (fileToUpload s) (folderName s)
    (isLoading s) (currentFolderId s) (f (breadcrumbPath s))).

(** ** Array helpers *)

(** [Array.prototype.findIndex]: the first index whose element satisfies
    [p], or [-1]. *)
Fixpoint findIndex {A} (p : A → bool) (l : list A) : Z :=
  match l with
  | [] => -1
  | x :: l' =>
      if p x then 0
      else let i := findIndex p l' in if i =? -1 then -1 else i + 1
  end.

(** [Array.prototype.slice(start, end)] for non-negative arguments, the only
    ones the component passes. *)
Definition slice {A} (start stop : Z) (l : list A) : list A :=
  drop (Z.to_nat start) (take (Z.to_nat stop) l).

(** [Array.prototype.sort(comparefn)].  ECMAScript fixes the result for a
    consistent comparator: the stable sorted permutation.  Insertion from
    the right computes it. *)
Fixpoint insert_sorted {A} (cmp : A → A → Z) (x : A) (l : list A) : list A :=
  match l with
  | [] => [x]
  | y :: l' => if cmp x y <=? 0 then x :: y :: l'
               else y :: insert_sorted cmp x l'
  end.

Fixpoint sort {A} (cmp : A → A → Z) (l : list A) : list A :=
  match l with
  | [] => []
  | x :: l' => insert_sorted cmp x (sort cmp l')
  end.

(** Truthiness of an identifier: [null], [0] and the empty string are
    falsy. *)
Definition truthy (i : Id) : bool :=
  match i with
  | Null => false
  | IdNum n => negb (n =? 0)
  | IdStr s => negb (bool_decide (s = ""))
  end.

(** A string is the sequence of its code units, each below 256.  Among
    those the white space and the line terminators, which are what
    [trim] strips, are the tab, the line feed, the vertical tab, the form
    feed and the carriage return (9 to 13), the space (32) and the
    no-break space (160); the others the language counts as such (the
    byte order mark, the line and paragraph separators, the rest of the
    space separators) lie above 255. *)
Definition nbsp : ascii := "160"%char.

Definition is_space (c : ascii) : bool :=
  let n := nat_of_ascii c in
  bool_decide (n = 32%nat) || bool_decide (n = 160%nat)
  || (bool_decide (9 ≤ n)%nat && bool_decide (n ≤ 13)%nat).

Fixpoint trimStart_list (l : list ascii) : list ascii :=
  match l with
  | c :: l' => if is_space c then trimStart_list l' else l
  | [] => []
  end.

(** [String.prototype.trim]: the white space and the line terminators at
    both ends are dropped. *)
Definition trim (s : string) : string :=
  string_of_list_ascii
    (rev (trimStart_list (rev (trimStart_list (list_ascii_of_string s))))).

(** Evaluation of an identifier in a scope: a name that is bound nowhere
    raises [ReferenceError]. *)
Fixpoint binding (scope : list (string * Id)) (x : string) : option Id :=
  match scope with
  | [] => None
  | (y, v) :: scope' => if String.eqb y x then Some v else binding scope' x
  end.

Definition identifier (scope : list (string * Id)) (x : string) : M Id :=
  match binding scope x with
  | Some v => ret v
  | None => throw (ReferenceError x)
  end.

Definition newline : string := String "010"%char "".
Definition dquote : string := String "034"%char "".

(** ** [formatBytes] *)

(** A JavaScript number: every finite double is a rational, so [Finite]
    covers them all; the sign of zero plays no part here. *)
Inductive Number : Type :=
| NaN
| PosInfinity
| NegInfinity
| Finite (q : Q).

(** An integral number or one of the special values, as [Math.floor]
    returns them. *)
Inductive Integral : Type :=
| INaN
| IPosInfinity
| INegInfinity
| Int (z : Z).

(** [!+bytes]: the number is [0] or [NaN]. *)
Definition is_zero_or_NaN (bytes : Number) : bool :=
  match bytes with
  | NaN => true
  | Finite q => Qeq_bool q 0
  | _ => false
  end.

(** The largest [e] with [2^e <= q], for a positive rational [q]. *)
Definition floor_log2 (q : Q) : Z :=
  let n := Qnum q in
  let d := Zpos (Qden q) in
  let e := Z.log2 n - Z.log2 d in
  if (if 0 <=? e then 2 ^ e * d <=? n else d <=? n * 2 ^ (- e))
  then e else e - 1.

(** [Math.floor(Math.log(bytes) / Math.log(k))] for [k = 1024 = 2^10],
    computed exactly.  The sign of the result, which is all that decides
    whether the index below falls in the table, is the sign of the
    logarithm and is the same in floating point: [Math.log] is negative
    below 1, zero at 1 and positive above. *)
Definition floor_log_1024 (bytes : Number) : Integral :=
  match bytes with
  | NaN => INaN
  | PosInfinity => IPosInfinity
  | NegInfinity => INaN
  | Finite q =>
      match (q ?= 0)%Q with
      | Lt => INaN
      | Eq => INegInfinity
      | Gt => Int (floor_log2 q / 10)
      end
  end.

(** [Math.min(i, n)] for an integer [n]. *)
Definition Math_min (i : Integral) (n : Z) : Integral :=
  match i with
  | INaN => INaN
  | IPosInfinity => Int n
  | INegInfinity => INegInfinity
  | Int z => Int (Z.min z n)
  end.

(** [arr[index]]: [undefined] ([None]) unless the index is one of the
    array's. *)
Definition element {A} (arr : list A) (index : Integral) : option A :=
  match index with
  | Int z => if 0 <=? z then arr !! Z.to_nat z else None
  | _ => None
  end.

(** [bytes / Math.pow(k, index)] *)
Definition scaled (bytes : Number) (k : Z) (index : Integral) : Number :=
  match bytes, index with
  | Finite q, Int z => Finite (q / inject_Z k ^ z)
  | PosInfinity, Int _ => PosInfinity
  | NegInfinity, Int _ => NegInfinity
  | _, _ => NaN
  end.

Definition sizes : list string := ["Bytes"; "KB"; "MB"; "GB"; "TB"].

Section FormatBytes.

(** The text of [parseFloat(x.toFixed(dm))] in a template literal: the
    runtime's number formatting. *)
Variable numberText : Number → Z → string.

(** [decimals] is [None] when the argument is left out (it defaults to 2);
    [toFixed] raises [RangeError] for more than 100 digits. *)
Definition formatBytes (bytes : Number) (decimals : option Z)
    : Completion string :=
  let decimals := default 2 decimals in
  if is_zero_or_NaN bytes then Normal "0 Bytes"
  else
    let k := 1024 in
    let dm := if decimals <? 0 then 0 else decimals in
    let i := floor_log_1024 bytes in
    let index := Math_min i (Z.of_nat (length sizes) - 1) in
    if 100 <? dm
    then Throw (RangeError "toFixed() digits argument must be between 0 and 100")
    else
      Normal (numberText (scaled bytes k index) dm +:+ " "
              +:+ default "undefined" (element sizes index)).

End FormatBytes.

(** ** The component's functions *)

(** What the component takes from the JavaScript runtime:
    [String.prototype.localeCompare], whose collation is the host's. *)
Class Runtime : Type := { localeCompare : string → string → Z }.

Section App.

Context {rt : Runtime}.

(** The comparator given to [combinedItems.sort]. *)
Definition compareItems (a b : Item.t) : Z :=
  match Item.type a, Item.type b with
  | folder, file => -1
  | file, folder => 1
  | _, _ => localeCompare (Item.name a) (Item.name b)
  end.

(** *** Fetching *)

(** [fetchItems] up to its [await Promise.all]. *)
Definition fetchItems (folderId : Id) : M unit :=
  setIsLoading true;;
  request (GetFolders folderId);;
  request (GetFiles folderId);;
  suspend (AwaitFetch folderId).

(** [handleLogout] up to its [await axios.post]. *)
Definition handleLogout (showToast : bool) : M unit :=
  request PostLogout;;
  suspend (AwaitLogout showToast).

Definition handleLogout_resume (showToast : bool) (r : Reply unit) : M unit :=
  try_finally
    (try_catch
       (await r;;
        when showToast (toast Success "Logged out successfully!"))
       (λ err,
          when showToast
            (toast Error "Logout failed on server, logged out locally.")))
    (setUser None).

(** *** Navigation *)

Definition navigateToFolder (folderId : Id) (folderName : string) : M unit :=
  setCurrentFolderId folderId;;
  (if strict_eq folderId Null then setBreadcrumbPath (λ _, [root])
   else
     setBreadcrumbPath (λ prevPath,
       let existingIndex :=
         findIndex (λ f, strict_eq (Crumb.id f) folderId) prevPath in
       if negb (existingIndex =? -1)
       then slice 0 (existingIndex + 1) prevPath
       else prevPath ++ [Crumb.mk folderId folderName]));;
  fetchItems folderId.

(** The entries of a listing response that [fetchItems] keeps. *)
Definition folders_of (d : ListData) : list Item.t :=
  match d with
  | DataArray l => tag folder <$> l
  | DataNested l => tag folder <$> l
  | DataOther => []
  end.

Definition files_of (d : ListData) : list Item.t :=
  match d with
  | DataArray l => tag file <$> l
  | _ => []
  end.

(** [fetchItems] from the point its [await] settles. *)
Definition fetchItems_resume (folderId : Id)
    (r : Reply (ListData * ListData)) : M unit :=
  try_finally
    (try_catch
       (res ← await r;
        let fetchedFolders := folders_of res.1 in
        let fetchedFiles := files_of res.2 in
        let combinedItems := fetchedFolders ++ fetchedFiles in
        setItems (sort compareItems combinedItems))
       (λ err,
          toast Error "Failed to fetch items.";;
          when (status_is err 401)
            (handleLogout false;;
             toast Info "Session expired. Please log in again.");;
          when (status_is err 404
                && negb (strict_eq folderId Null))
            (toast Warn "Folder not found, returning to root.";;
             navigateToFolder Null "Root")))
    (setIsLoading false).

(** *** Effects of the component *)

(** The mount effect, [checkAuth], up to its [await]. *)
Definition checkAuth : M unit :=
  setIsAuthenticating true;;
  request GetProfile;;
  suspend AwaitProfile.

Definition checkAuth_resume (r : Reply (option User.t)) : M unit :=
  try_finally
    (try_catch (data ← await r; setUser data) (λ err, setUser None))
    (setIsAuthenticating false).

(** The effect with dependencies [user, isAuthenticating]. *)
Definition userEffect : M unit :=
  s ← get;
  if bool_decide (is_Some (user s)) && negb (isLoading s)
     && negb (isAuthenticating s)
  then
    when (strict_eq (currentFolderId s) Null
          && bool_decide (length (items s) = 0%nat))
      (fetchItems Null)
  else if negb (bool_decide (is_Some (user s)))
  then
    setItems [];;
    setBreadcrumbPath (λ _, [root]);;
    setCurrentFolderId Null
  else ret tt.

Definition deps (s : State) : option User.t * bool :=
  (user s, isAuthenticating s).

(** One turn of the event loop: the handler runs, React renders, and the
    effect runs when one of its dependencies differs from the previous
    render's. *)
Definition dispatch (m : M unit) (w : World) : World :=
  let w' := run m w in
  if bool_decide (deps (st w') = deps (st w)) then w'
  else run userEffect w'.

(** The component after its first render and the two effects of it. *)
Definition mount : World :=
  run (checkAuth;; userEffect) (mkWorld initial_state None Null [] []).

(** *** Authentication *)

Definition handleAuth : M unit :=
  setIsLoading true;;
  s ← get;
  let url := if isLogin s then "/api/user/login" else "/api/user/register" in
  request (PostAuth url);;
  suspend (AwaitAuth (isLogin s)).

Definition handleAuth_resume (isLogin : bool) (r : Reply (option User.t))
    : M unit :=
  try_finally
    (try_catch
       (userData ← await r;
        match userData with
        | Some u =>
            if truthy (User.id u) then
              setUser (Some u);;
              toast Success (if isLogin then "Login successful!"
                             else "Registration successful!");;
              setEmail "";;
              setPassword "";;
              setName ""
            else throw (JsError "Invalid user data received from server.")
        | None => throw (JsError "Invalid user data received from server.")
        end)
       (λ err, toast Error (message_or err "Authentication failed")))
    (setIsLoading false).


(** *** File and folder actions *)

Definition handleFileUpload : M unit :=
  s ← get;
  match fileToUpload s with
  | None => toast Warn "Please select a file."
  | Some fileName =>
      if isLoading s then ret tt
      else
        let targetFolderId := currentFolderId s in
        setIsLoading true;;
        request (PostUpload fileName targetFolderId);;
        suspend (AwaitUpload fileName targetFolderId)
  end.

(** The identifiers bound to a folder id where the upload continuation
    runs: the local [targetFolderId]; the component's [currentFolderId]
    holds the same value there.  The argument of the [fetchItems] call is
    written [targetFolderIdnull] in the source. *)
Definition handleFileUpload_resume (fileName : string) (targetFolderId : Id)
    (r : Reply unit) : M unit :=
  let scope := [("targetFolderId", targetFolderId);
                ("currentFolderId", targetFolderId)] in
  try_catch
    (await r;;
     toast Success ("File '" +:+ fileName +:+ "' uploaded.");;
     setFileToUpload None;;
     arg ← identifier scope "targetFolderIdnull";
     fetchItems arg)
    (λ err,
       toast Error (message_or err "File upload failed.");;
       setIsLoading false).

Definition createFolder : M unit :=
  s ← get;
  if bool_decide (trim (folderName s) = "")
  then toast Warn "Folder name cannot be empty."
  else if isLoading s then ret tt
  else
    let targetParentId := currentFolderId s in
    setIsLoading true;;
    request (PostFolder (trim (folderName s)) targetParentId);;
    suspend (AwaitCreate (trim (folderName s)) targetParentId).

Definition createFolder_resume (folderName : string) (targetParentId : Id)
    (r : Reply unit) : M unit :=
  try_catch
    (await r;;
     toast Success ("Folder '" +:+ folderName +:+ "' created.");;
     setFolderName "";;
     fetchItems targetParentId)
    (λ err,
       toast Error (message_or err "Failed to create folder.");;
       setIsLoading false).

Definition confirmationMessage (isFolder : bool) (itemName : string) : string :=
  if isFolder
  then "DELETE FOLDER?" +:+ newline +:+ newline
       +:+ "Are you sure you want to delete the folder " +:+ dquote
       +:+ itemName +:+ dquote
       +:+ " and ALL its contents? This cannot be undone."
  else "DELETE FILE?" +:+ newline +:+ newline
       +:+ "Are you sure you want to delete the file " +:+ dquote
       +:+ itemName +:+ dquote +:+ "?".

(** [handleDelete] up to its [await]; [answer] is what the user answers to
    [window.confirm] if it is shown. *)
Definition handleDelete (item : Item.t) (answer : bool) : M unit :=
  s ← get;
  if isLoading s then ret tt
  else
    let isFolder := bool_decide (Item.type item = folder) in
    let endpoint := if isFolder then "folders" else "files" in
    emit (Confirm (confirmationMessage isFolder (Item.name item)) answer);;
    if answer then
      let folderToRefetch := currentFolderId s in
      setIsLoading true;;
      request (Delete endpoint (Item.id item));;
      suspend (AwaitDelete isFolder (Item.name item) folderToRefetch)
    else ret tt.

Definition handleDelete_resume (isFolder : bool) (itemName : string)
    (folderToRefetch : Id) (r : Reply unit) : M unit :=
  let itemTypeName := if isFolder then "Folder" else "File" in
  try_catch
    (await r;;
     toast Success (itemTypeName +:+ " '" +:+ itemName +:+ "' deleted.");;
     fetchItems folderToRefetch)
    (λ err,
       toast Error
         (message_or err ("Failed to delete " +:+ itemTypeName +:+ "."));;
       setIsLoading false).

(** *** Replacing a file's content *)

Definition cleanupFileInput : M unit :=
  w ← get_world;
  match updateFileInputRef w with
  | Some _ => set_updateFileInputRef None
  | None => ret tt
  end.

(** [createFileInput(handleActualFileUpdate)] stores a closure of the
    current render, hence the current [currentFolderId]; an input that is
    still there is reused with the closure it has. *)
Definition triggerUpdateFile (fileId : Id) : M unit :=
  s ← get;
  if isLoading s then ret tt
  else
    set_fileToUpdateIdRef fileId;;
    w ← get_world;
    match updateFileInputRef w with
    | None => set_updateFileInputRef (Some (currentFolderId s))
    | Some _ => ret tt
    end.

(** The [onchange] of the hidden input: [currentFolderId] is the one its
    closure captured, [newFile] is [event.target.files[0]]. *)
Definition handleActualFileUpdate (currentFolderId : Id)
    (newFile : option string) (answer : bool) : M unit :=
  w ← get_world;
  let fileIdToUpdate := fileToUpdateIdRef w in
  match newFile with
  | None => cleanupFileInput
  | Some newFileName =>
      if negb (truthy fileIdToUpdate) then cleanupFileInput
      else
        emit (Confirm ("Replace the existing file with " +:+ dquote
                       +:+ newFileName +:+ dquote +:+ "?") answer);;
        if negb answer then cleanupFileInput
        else
          let folderToRefetch := currentFolderId in
          setIsLoading true;;
          request (PutFile fileIdToUpdate);;
          suspend (AwaitUpdate folderToRefetch)
  end.

Definition handleActualFileUpdate_resume (folderToRefetch : Id)
    (r : Reply (option string)) : M unit :=
  try_finally
    (try_catch
       (message ← await r;
        toast Success
          (match message with
           | Some m => if bool_decide (m = "")
                       then "File updated successfully!" else m
           | None => "File updated successfully!"
           end);;
        fetchItems folderToRefetch)
       (λ err,
          toast Error (message_or err "Failed to update file.");;
          setIsLoading false))
    (cleanupFileInput;; set_fileToUpdateIdRef Null).

(** *** The event loop *)

(** What the user can make the component do: each constructor is one
    handler of the rendered tree with its arguments. *)
Inductive Event : Type :=
| TypeEmail (v : string)
| TypePassword (v : string)
| TypeName (v : string)
| ToggleIsLogin
| SubmitAuth
| ClickLogout
| SelectFile (f : option string)
| ClickUpload
| TypeFolderName (v : string)
| SubmitCreateFolder
| Navigate (folderId : Id) (folderName : string)
| ClickDelete (item : Item.t) (answer : bool)
| ClickUpdate (fileId : Id)
| PickFile (newFile : option string) (answer : bool).

Definition handle (e : Event) : M unit :=
  match e with
  | TypeEmail v => setEmail v
  | TypePassword v => setPassword v
  | TypeName v => setName v
  | ToggleIsLogin => s ← get; setIsLogin (negb (isLogin s))
  | SubmitAuth => handleAuth
  | ClickLogout => handleLogout true
  | SelectFile f => setFileToUpload f
  | ClickUpload => handleFileUpload
  | TypeFolderName v => setFolderName v
  | SubmitCreateFolder => createFolder
  | Navigate folderId folderName => navigateToFolder folderId folderName
  | ClickDelete item answer => handleDelete item answer
  | ClickUpdate fileId => triggerUpdateFile fileId
  | PickFile newFile answer =>
      w ← get_world;
      match updateFileInputRef w with
      | Some captured => handleActualFileUpdate captured newFile answer
      | None => ret tt
      end
  end.

(** Whether the rendered tree offers the event: the login form is shown
    without a user, the drive view with one, nothing but a loading
    screen during the first authentication check; controls that carry
    [disabled={isLoading}] are dead while loading; breadcrumb links are
    the entries before the last; folder links are the folder rows of
    the table. *)
Definition ui_enabled (e : Event) (w : World) : bool :=
  let s := st w in
  let form := negb (isAuthenticating s) && negb (bool_decide (is_Some (user s))) in
  let drive := negb (isAuthenticating s) && bool_decide (is_Some (user s)) in
  let idle := negb (isLoading s) in
  match e with
  | TypeEmail _ | TypePassword _ => form
  | TypeName _ => form && negb (isLogin s)
  | ToggleIsLogin | SubmitAuth => form && idle
  | ClickLogout => drive
  | SelectFile _ | TypeFolderName _ => drive && idle
  | ClickUpload => drive && idle && bool_decide (is_Some (fileToUpload s))
  | SubmitCreateFolder =>
      drive && idle && negb (bool_decide (trim (folderName s) = ""))
  | Navigate folderId folderName =>
      drive
      && ((idle
           && bool_decide (Crumb.mk folderId folderName
                           ∈ removelast (breadcrumbPath s)))
          || existsb
               (λ item, bool_decide (Item.type item = folder)
                        && bool_decide (Item.id item = folderId)
                        && bool_decide (Item.name item = folderName))
               (items s))
  | ClickDelete item _ => drive && idle && bool_decide (item ∈ items s)
  | ClickUpdate fileId =>
      drive && idle
      && existsb
           (λ item, bool_decide (Item.type item = file)
                    && bool_decide (Item.id item = fileId))
           (items s)
  | PickFile _ _ => bool_decide (is_Some (updateFileInputRef w))
  end.

(** What the promise awaited by a task resolves to. *)
Definition payload (t : Task) : Type :=
  match t with
  | AwaitFetch _ => (ListData * ListData)%type
  | AwaitProfile | AwaitAuth _ => option User.t
  | AwaitUpdate _ => option string
  | _ => unit
  end.

Definition resume (t : Task) : Reply (payload t) → M unit :=
  match t with
  | AwaitFetch folderId => fetchItems_resume folderId
  | AwaitLogout showToast => handleLogout_resume showToast
  | AwaitProfile => checkAuth_resume
  | AwaitAuth isLogin => handleAuth_resume isLogin
  | AwaitUpload fileName targetFolderId =>
      handleFileUpload_resume fileName targetFolderId
  | AwaitCreate folderName targetParentId =>
      createFolder_resume folderName targetParentId
  | AwaitDelete isFolder itemName folderToRefetch =>
      handleDelete_resume isFolder itemName folderToRefetch
  | AwaitUpdate folderToRefetch =>
      handleActualFileUpdate_resume folderToRefetch
  end.

(** Remove the first occurrence of a task from the requests in flight. *)
Fixpoint remove_first (t : Task) (l : list Task) : list Task :=
  match l with
  | [] => []
  | t' :: l' => if bool_decide (t' = t) then l' else t' :: remove_first t l'
  end.

Definition settled (t : Task) (w : World) : World :=
  mkWorld (st w) (updateFileInputRef w) (fileToUpdateIdRef w) (out w)
    (remove_first t (pending w)).

(** A turn of the event loop: a user event, or the settling of a request
    in flight with the server's reply. *)
Inductive Action : Type :=
| UI (e : Event)
| Settle (t : Task) (r : Reply (payload t)).

Definition exec (a : Action) (w : World) : World :=
  match a with
  | UI e => dispatch (handle e) w
  | Settle t r =>
      if bool_decide (t ∈ pending w)
      then dispatch (resume t r) (settled t w)
      else w
  end.

Definition execs (l : list Action) (w : World) : World :=
  foldl (λ w a, exec a w) w l.

(** Every action of the run is offered when its turn comes: the rendered
    tree offers the user event, the request to settle is in flight. *)
Fixpoint feasible (l : list Action) (w : World) : bool :=
  match l with
  | [] => true
  | a :: l' =>
      match a with
      | UI e => ui_enabled e w
      | Settle t _ => bool_decide (t ∈ pending w)
      end && feasible l' (exec a w)
  end.

Inductive reachable : World → Prop :=
| reachable_mount : reachable mount
| reachable_exec a w : reachable w → reachable (exec a w).

End App.

(** ** Notions the properties are stated with *)

(** The breadcrumbs [navigateToFolder] computes from the previous ones. *)
Definition navigated (folderId : Id) (fName : string) (prevPath : list Crumb.t)
    : list Crumb.t :=
  if strict_eq folderId Null then [root]
  else
    let existingIndex :=
      findIndex (λ f, strict_eq (Crumb.id f) folderId) prevPath in
    if negb (existingIndex =? -1)
    then slice 0 (existingIndex + 1) prevPath
    else prevPath ++ [Crumb.mk folderId fName].

Definition unique_ids (p : list Crumb.t) : Prop := NoDup (Crumb.id <$> p).

(** The path is not empty and its last entry is the open folder. *)
Definition ends_at_current (s : State) : Prop :=
  breadcrumbPath s ≠ []
  ∧ Crumb.id <$> last (breadcrumbPath s) = Some (currentFolderId s).

(** The invariant of the navigation state: the path starts at the root,
    ends at the open folder and repeats no id. *)
Definition nav_inv (s : State) : Prop :=
  ends_at_current s
  ∧ unique_ids (breadcrumbPath s)
  ∧ head (breadcrumbPath s) = Some root.

Definition is_delete (e : Effect) : Prop :=
  match e with Request (Delete _ _) => True | _ => False end.

Definition is_request (e : Effect) : Prop :=
  match e with Request _ => True | _ => False end.

(** The prompt of [handleDelete], as opposed to the one that guards the
    replacement of a file. *)
Definition is_delete_prompt (e : Effect) : bool :=
  match e with
  | Confirm msg true => String.prefix "DELETE F" msg
  | _ => false
  end.

(** Every DELETE request of a trace comes right after a delete prompt that
    was answered positively; [confirmed] says whether such a prompt stands
    right before the trace. *)
Fixpoint deletes_confirmed (confirmed : bool) (l : list Effect) : bool :=
  match l with
  | [] => true
  | e :: l' =>
      match e with Request (Delete _ _) => confirmed | _ => true end
      && deletes_confirmed (is_delete_prompt e) l'
  end.

(** A computation only appends to the trace, and what it appends keeps
    the DELETE requests behind their prompts. *)
Definition appends_confirmed (m : M unit) : Prop :=
  ∀ w, ∃ c, out (run m w) = out w ++ c ∧ deletes_confirmed false c = true.

(** ** A concrete runtime and concrete data *)

(** A collation to run the component with: the order of the code units. *)
Definition codeUnitCompare (a b : string) : Z :=
  match String_as_OT.compare a b with
  | Lt => -1
  | Eq => 0
  | Gt => 1
  end.

Definition codeUnit : Runtime := {| localeCompare := codeUnitCompare |}.

Definition ann : User.t := User.mk (IdNum 7) "ann" "ann@example.org" 1.
Definition docs : Entry.t := Entry.mk (IdNum 1) "docs" None.
Definition pics : Entry.t := Entry.mk (IdNum 2) "pics" None.
Definition notes : Entry.t := Entry.mk (IdNum 9) "notes.txt" (Some 10).
Definition todo : Entry.t := Entry.mk (IdNum 8) "todo.txt" (Some 3).

(** The session is restored and the root listing arrives. *)
Definition browsing : list Action :=
  [Settle AwaitProfile (Resolved (Some ann));
   Settle (AwaitFetch Null)
     (Resolved (DataArray [pics; docs], DataArray [todo; notes]))].

(** Two folders are opened one right after the other, then the user logs
    out; the logout and the first listing arrive while the second
    listing is still in flight. *)
Definition overlapping : list Action :=
  browsing ++
  [UI (Navigate (IdNum 1) "docs");
   UI (Navigate (IdNum 2) "pics");
   UI ClickLogout;
   Settle (AwaitLogout true) (Resolved tt);
   Settle (AwaitFetch (IdNum 1)) (Resolved (DataArray [], DataArray [notes]))].

(** Two folders are opened one right after the other, so that both
    listings are loading. *)
Definition two_listings_loading : list Action :=
  browsing ++
  [UI (Navigate (IdNum 1) "docs");
   UI (Navigate (IdNum 2) "pics")].

(** The fetch of pics fails with 401 while the session exists, which
    starts the silent logout.  The user clicks Logout, and that logout
    settles first.  The listing of docs, answered before the session
    expired, arrives next; the silent logout settles last. *)
Definition expired_while_browsing : list Action :=
  two_listings_loading ++
  [Settle (AwaitFetch (IdNum 2)) (Rejected (AxiosError (Some 401) None));
   UI ClickLogout;
   Settle (AwaitLogout true) (Resolved tt);
   Settle (AwaitFetch (IdNum 1)) (Resolved (DataArray [], DataArray [notes]));
   Settle (AwaitLogout false) (Resolved tt)].

(** A picker for the replacement of notes.txt is opened at the root and
    dismissed, which raises no change event; then docs is opened and the
    replacement of a file there is carried out. *)
Definition dismissed_picker : list Action :=
  browsing ++
  [UI (ClickUpdate (IdNum 9));
   UI (Navigate (IdNum 1) "docs");
   Settle (AwaitFetch (IdNum 1)) (Resolved (DataArray [], DataArray [todo]));
   UI (ClickUpdate (IdNum 8));
   UI (PickFile (Some "todo-v2.txt") true);
   Settle (AwaitUpdate Null) (Resolved None)].

(** ** The rendered tree *)

(** What [App] returns: the loading screen during the first authentication
    check, the login form without a user, the drive view with one. *)
Inductive Screen : Type := LoadingScreen | AuthForm | DriveView.

Definition screen (s : State) : Screen :=
  if isAuthenticating s then LoadingScreen
  else if negb (bool_decide (is_Some (user s))) then AuthForm
  else DriveView.

(** One entry of [Breadcrumbs]: a button for the entries before the last,
    a plain label for the last. *)
Inductive CrumbView : Type :=
| CrumbLink (label : string) (disabled : bool) (onClick : M unit)
| CrumbCurrent (label : string).

Definition Breadcrumbs (path : list Crumb.t)
    (onNavigate : Id → string → M unit) (isLoading : bool) : list CrumbView :=
  imap (λ index folder,
          if Z.of_nat index <? Z.of_nat (length path) - 1
          then CrumbLink (Crumb.name folder) isLoading
                 (when (negb isLoading)
                    (onNavigate (Crumb.id folder) (Crumb.name folder)))
          else CrumbCurrent (Crumb.name folder))
       path.

(** The tag of an item as the string the code compares and shows. *)
Definition typeName (t : ItemType) : string :=
  match t with
  | folder => "folder"
  | file => "file"
  end.

(** The Type column: ['Folder'] for a folder, else [item.type || 'File']. *)
Definition typeCell (item : Item.t) : string :=
  if bool_decide (Item.type item = folder) then "Folder"
  else if bool_decide (typeName (Item.type item) = "") then "File"
  else typeName (Item.type item).

Section Table.

Variable numberText : Number → Z → string.

(** The Size column: [formatBytes(item.size)] for a file whose size is not
    null, a dash otherwise. *)
Definition sizeCell (item : Item.t) : Completion string :=
  match Item.type item, Item.size item with
  | file, Some size => formatBytes numberText (Finite (inject_Z size)) None
  | _, _ => Normal "-"
  end.

End Table.

(** ** The file name of a download *)

(** The constructs of the regular expression in [downloadFile]: literal
    text, one character of a class, a class under a greedy or a lazy star,
    a capturing group, a back reference, alternation, sequence. *)
Inductive Regex : Type :=
| RChars (s : list ascii)
| RClass (cls : ascii → bool)
| RStar (greedy : bool) (cls : ascii → bool)
| RGroup (g : nat) (r : Regex)
| RBackref (g : nat)
| RAlt (r1 r2 : Regex)
| RSeq (r1 r2 : Regex).

Definition Captures : Type := nat → option (list ascii).

Definition capture (g : nat) (text : list ascii) (caps : Captures) : Captures :=
  λ g', if Nat.eqb g' g then Some text else caps g'.

Fixpoint strip_prefix (p s : list ascii) : option (list ascii) :=
  match p, s with
  | [], _ => Some s
  | a :: p', b :: s' => if Ascii.eqb a b then strip_prefix p' s' else None
  | _ :: _, [] => None
  end.

(** A starred class before the continuation [k]: the greedy star tries
    the longest run first, the lazy one the shortest. *)
Fixpoint star (greedy : bool) (cls : ascii → bool)
    (k : list ascii → option Captures) (s : list ascii) : option Captures :=
  match s with
  | c :: s' =>
      if cls c then
        if greedy
        then match star greedy cls k s' with
             | Some r => Some r
             | None => k s
             end
        else match k s with
             | Some r => Some r
             | None => star greedy cls k s'
             end
      else k s
  | [] => k s
  end.

(** Backtracking matching at the start of [s]: [k] is what has to match
    after [r]; alternatives are tried left to right, and what an
    abandoned alternative captured is forgotten. *)
Fixpoint matches (r : Regex) (s : list ascii) (caps : Captures)
    (k : list ascii → Captures → option Captures) : option Captures :=
  match r with
  | RChars p =>
      match strip_prefix p s with
      | Some s' => k s' caps
      | None => None
      end
  | RClass cls =>
      match s with
      | c :: s' => if cls c then k s' caps else None
      | [] => None
      end
  | RStar greedy cls => star greedy cls (λ s', k s' caps) s
  | RGroup g r' =>
      matches r' s caps
        (λ s' caps', k s' (capture g (take (length s - length s') s) caps'))
  | RBackref g =>
      match caps g with
      | Some text =>
          match strip_prefix text s with
          | Some s' => k s' caps
          | None => None
          end
      | None => k s caps
      end
  | RAlt r1 r2 =>
      match matches r1 s caps k with
      | Some c => Some c
      | None => matches r2 s caps k
      end
  | RSeq r1 r2 => matches r1 s caps (λ s' caps', matches r2 s' caps' k)
  end.

(** [RegExp.prototype.exec] without flags: the match at the leftmost
    position that has one. *)
Fixpoint exec_regex (r : Regex) (s : list ascii) : option Captures :=
  match matches r s (λ _, None) (λ _ caps, Some caps) with
  | Some caps => Some caps
  | None =>
      match s with
      | [] => None
      | _ :: s' => exec_regex r s'
      end
  end.

Definition is_char (a : ascii) (c : ascii) : bool := Ascii.eqb a c.

(** The dot: any character but a line terminator.  Of the four line
    terminators the line feed and the carriage return are single bytes;
    the two Unicode separators do not occur among the 8-bit characters a
    header is made of here. *)
Definition dot (c : ascii) : bool :=
  negb (is_char "010" c || is_char "013" c).

(** The class of the two quote characters, single and double. *)
Definition quote_class (c : ascii) : bool := is_char "'" c || is_char "034" c.

(** [[^;=\n]] *)
Definition not_semi_eq_nl (c : ascii) : bool :=
  negb (is_char ";" c || is_char "=" c || is_char "010" c).

(** [[^;\n]] *)
Definition not_semi_nl (c : ascii) : bool :=
  negb (is_char ";" c || is_char "010" c).

(** The two forms of the value in the expression of [downloadFile]:
    a quote (group 1), the dot under a lazy star (group 2, named [f1])
    and the same quote again; or the class [[^;\n]] under a greedy star
    (group 3, named [f2]). *)
Definition quotedValue : Regex :=
  RSeq (RGroup 1 (RClass quote_class))
    (RSeq (RGroup 2 (RStar false dot)) (RBackref 1)).

Definition bareValue : Regex := RGroup 3 (RStar true not_semi_nl).

(** The expression of [downloadFile]: the word filename, the class
    [[^;=\n]] under a greedy star, an equals sign, and one of the two
    forms of the value, the quoted one first. *)
Definition filenameRegex : Regex :=
  RSeq (RChars (list_ascii_of_string "filename"))
    (RSeq (RStar true not_semi_eq_nl)
       (RSeq (RChars (list_ascii_of_string "="))
          (RAlt quotedValue bareValue))).

(** A captured group as the operand of [||]: a group that did not take
    part, or that matched the empty string, is falsy. *)
Definition group_text (caps : Captures) (g : nat) : option string :=
  match caps g with
  | Some (c :: text) => Some (string_of_list_ascii (c :: text))
  | _ => None
  end.

(** The name [downloadFile] saves the file under, from the
    [content-disposition] header of the response (absent: [None]) and
    the name of the item. *)
Definition effectiveFilename (contentDisposition : option string)
    (fileName : string) : string :=
  match contentDisposition with
  | None => fileName
  | Some header =>
      if bool_decide (header = "") then fileName
      else
        match exec_regex filenameRegex (list_ascii_of_string header) with
        | Some groups =>
            match group_text groups 2 with
            | Some f1 => f1
            | None => default fileName (group_text groups 3)
            end
        | None => fileName
        end
  end.

(** ** Runs the user can drive *)

(** Tasks that were started together with [setIsLoading(true)]. *)
Definition loading_task (t : Task) : bool :=
  match t with
  | AwaitLogout _ | AwaitProfile => false
  | _ => true
  end.

(** How many times a task is in flight. *)
Fixpoint in_flight (t : Task) (l : list Task) : nat :=
  match l with
  | [] => 0
  | t' :: l' => (if bool_decide (t' = t) then 1 else 0) + in_flight t l'
  end.

Section Offered.

Context {rt : Runtime}.

(** An action the component can meet: a user event that the rendered
    tree offers, or the settling of a request that is in flight. *)
Definition offered (a : Action) (w : World) : bool :=
  match a with
  | UI e => ui_enabled e w
  | Settle t _ => bool_decide (t ∈ pending w)
  end.

Inductive ui_reachable : World → Prop :=
| ui_reachable_mount : ui_reachable mount
| ui_reachable_exec a w :
    ui_reachable w → offered a w = true → ui_reachable (exec a w).

End Offered.

(** A computation leaves the navigation state as it is or puts it back to
    the root. *)
Definition keeps_or_resets_navigation (m : M unit) : Prop :=
  ∀ w,
    (currentFolderId (st (run m w)) = currentFolderId (st w)
     ∧ breadcrumbPath (st (run m w)) = breadcrumbPath (st w))
    ∨ (currentFolderId (st (run m w)) = Null
       ∧ breadcrumbPath (st (run m w)) = [root]).

(** A computation neither touches [isAuthenticating] nor starts a profile
    request. *)
Definition keeps_authenticating (m : M unit) : Prop :=
  ∀ w,
    isAuthenticating (st (run m w)) = isAuthenticating (st w)
    ∧ ∃ new, pending (run m w) = pending w ++ new
             ∧ in_flight AwaitProfile new = 0%nat.

(** A computation ends with loading switched off or with a new loading
    task in flight. *)
Definition settles_loading (m : M unit) : Prop :=
  ∀ w,
    ∃ new, pending (run m w) = pending w ++ new
           ∧ (isLoading (st (run m w)) = false
              ∨ existsb loading_task new = true).

(** A computation only adds tasks, and when it leaves loading switched on
    it either found it so or added a loading task. *)
Definition keeps_loading (m : M unit) : Prop :=
  ∀ w,
    ∃ new, pending (run m w) = pending w ++ new
           ∧ (isLoading (st (run m w)) = false
              ∨ isLoading (st (run m w)) = isLoading (st w)
              ∨ existsb loading_task new = true).

(** A string of nothing but white space. *)
Definition blank (s : string) : bool :=
  forallb is_space (list_ascii_of_string s).

(** The first and the last character of a string are not white space. *)
Definition trimmed (s : string) : Prop :=
  match list_ascii_of_string s with
  | [] => True
  | c :: l => is_space c = false ∧ is_space (List.last l c) = false
  end.

(** Without a user the view is at the root. *)
Definition rooted_without_user (w : World) : Prop :=
  user (st w) = None →
  currentFolderId (st w) = Null ∧ breadcrumbPath (st w) = [root].

(** The profile request is in flight exactly while [isAuthenticating] is
    set, and never twice. *)
Definition profile_inv (w : World) : Prop :=
  in_flight AwaitProfile (pending w)
  = if isAuthenticating (st w) then 1%nat else 0%nat.

(** While the busy flag is set, a request whose continuation clears it is
    in flight. *)
Definition loading_inv (w : World) : Prop :=
  isLoading (st w) = true → existsb loading_task (pending w) = true.

(** ** Further concrete runs *)

(** No session is found; the user fills in the form and signs in. *)
Definition signing_in : list Action :=
  [Settle AwaitProfile (Rejected (AxiosError (Some 401) None));
   UI (TypeEmail "ann@example.org");
   UI (TypePassword "secret");
   UI SubmitAuth].

Definition reports : Entry.t := Entry.mk (IdNum 4) "reports" None.

(** docs is opened, then reports inside it. *)
Definition two_levels_down : list Action :=
  browsing ++
  [UI (Navigate (IdNum 1) "docs");
   Settle (AwaitFetch (IdNum 1)) (Resolved (DataArray [reports], DataArray []));
   UI (Navigate (IdNum 4) "reports");
   Settle (AwaitFetch (IdNum 4)) (Resolved (DataArray [], DataArray [todo]))].

(** A folder name with a no-break space and blanks at both ends. *)
Definition padded_name : string :=
  String nbsp (" drafts " +:+ String nbsp EmptyString).

(** The name is typed at the root. *)
Definition naming_a_folder : list Action :=
  browsing ++ [UI (TypeFolderName padded_name)].

(** A name of nothing but a no-break space and a blank is typed; then docs
    is opened, and its listing is loading. *)
Definition blank_name_while_busy : list Action :=
  browsing ++
  [UI (TypeFolderName (String nbsp " "));
   UI (Navigate (IdNum 1) "docs")].

(** A picker is opened at the root and dismissed; then docs is opened. *)
Definition picker_left_behind : list Action :=
  browsing ++
  [UI (ClickUpdate (IdNum 9));
   UI (Navigate (IdNum 1) "docs");
   Settle (AwaitFetch (IdNum 1)) (Resolved (DataArray [], DataArray [todo]))].

(** * Properties *)

(** ** Reasoning about handlers *)

Ltac unfold_monad :=
  unfold mbind, mret, M_bind, M_ret, bind, ret, throw, try_catch, try_finally,
    when, await, modify, get, get_world, emit, suspend, toast, request,
    set_updateFileInputRef, set_fileToUpdateIdRef in *.

Ltac unfold_setters :=
  unfold setUser, setIsAuthenticating, setEmail, setPassword, setName,
    setIsLogin, setItems, setFileToUpload, setFolderName, setIsLoading,
    setCurrentFolderId, setBreadcrumbPath in *.

Ltac step_handler := repeat progress (unfold_setters; unfold_monad; cbn).

(** Case analysis on a scrutinee that has no case analysis inside. *)
Ltac innermost_case :=
  match goal with
  | |- context [match ?x with _ => _ end] =>
      lazymatch x with
      | context [match _ with _ => _ end] => fail
      | _ => destruct x eqn:?
      end
  end.

Section Properties.

Context {rt : Runtime}.

Lemma is_Some_None_false {A} : bool_decide (is_Some (@None A)) = false.
Proof. apply bool_decide_eq_false. intros [x Hx]. discriminate. Qed.

Lemma is_Some_Some_true {A} (x : A) : bool_decide (is_Some (Some x)) = true.
Proof. apply bool_decide_eq_true. eauto. Qed.

(** The effect, once the user is gone, puts the view back to the root. *)
Lemma userEffect_no_user w :
  user (st w) = None →
  st (run userEffect w)
  = mkState None (isAuthenticating (st w)) (email (st w)) (password (st w))
      (name (st w)) (isLogin (st w)) [] (fileToUpload (st w))
      (folderName (st w)) (isLoading (st w)) Null [root]
  ∧ out (run userEffect w) = out w
  ∧ pending (run userEffect w) = pending w.
Proof.
  intros Hu. unfold run, userEffect. step_handler.
  rewrite Hu, !(@is_Some_None_false User.t). cbn. by rewrite Hu.
Qed.

Lemma handleLogout_resume_state showToast r w :
  st (run (handleLogout_resume showToast r) w)
  = mkState None (isAuthenticating (st w)) (email (st w)) (password (st w))
      (name (st w)) (isLogin (st w)) (items (st w)) (fileToUpload (st w))
      (folderName (st w)) (isLoading (st w)) (currentFolderId (st w))
      (breadcrumbPath (st w))
  ∧ pending (run (handleLogout_resume showToast r) w) = pending w.
Proof.
  unfold run, handleLogout_resume.
  destruct r as [[]|err], showToast; step_handler; done.
Qed.

(** C4: whatever the logout request comes to, resolved or rejected, and
    whether or not toasts are shown, the turn of the event loop that
    settles it leaves [user] null, before and after the effect that the
    render triggers; calling [handleLogout] is what puts that request in
    flight. *)
Theorem handleLogout_always_clears_user :
  ∀ (showToast : bool) (r : Reply unit) (w : World),
    pending (run (handleLogout showToast) w)
      = pending w ++ [AwaitLogout showToast]
    ∧ user (st (run (resume (AwaitLogout showToast) r) w)) = None
    ∧ user (st (dispatch (resume (AwaitLogout showToast) r) w)) = None.
Proof.
  intros showToast r w. split; [done|].
  destruct (handleLogout_resume_state showToast r w) as [Hst Hp].
  split; [cbn [resume]; by rewrite Hst|].
  unfold dispatch. cbn [resume]. cbn zeta. case_bool_decide; [by rewrite Hst|].
  destruct (userEffect_no_user (run (handleLogout_resume showToast r) w))
    as [He _]; [by rewrite Hst|].
  by rewrite He.
Qed.

(** ** Breadcrumbs *)

Lemma findIndex_bounds {A} (p : A → bool) (l : list A) :
  -1 ≤ findIndex p l < Z.of_nat (length l).
Proof.
  induction l as [|x l IH]; cbn [findIndex length]; [lia|].
  destruct (p x); [lia|].
  destruct (Z.eqb_spec (findIndex p l) (-1)); lia.
Qed.

Lemma findIndex_absent {A} (p : A → bool) (l : list A) :
  findIndex p l = -1 ↔ ∀ x, x ∈ l → p x = false.
Proof.
  induction l as [|x l IH]; cbn [findIndex].
  - split; [|done]. intros _ x Hx. by apply elem_of_nil in Hx.
  - pose proof (findIndex_bounds p l) as Hb.
    destruct (p x) eqn:Hpx.
    + split; [lia|]. intros H. specialize (H x (list_elem_of_here _ _)). congruence.
    + destruct (Z.eqb_spec (findIndex p l) (-1)) as [Heq|Hne].
      * split; [|done]. intros _ y Hy.
        apply elem_of_cons in Hy as [->|Hy]; [done|]. by apply IH.
      * split; [lia|]. intros H. exfalso. apply Hne, IH.
        intros y Hy. apply H. by apply list_elem_of_further.
Qed.

(** When it is not [-1], [findIndex] is the position of the first element
    that satisfies the predicate. *)
Lemma findIndex_first {A} (p : A → bool) (l : list A) :
  findIndex p l ≠ -1 →
  ∃ (k : nat) (x : A),
    findIndex p l = Z.of_nat k ∧ l !! k = Some x ∧ p x = true
    ∧ ∀ (j : nat) (y : A), (j < k)%nat → l !! j = Some y → p y = false.
Proof.
  induction l as [|x l IH]; cbn [findIndex]; [done|].
  destruct (p x) eqn:Hpx.
  - intros _. exists 0%nat, x. repeat split; [done|]. intros j y Hj. lia.
  - destruct (Z.eqb_spec (findIndex p l) (-1)) as [Heq|Hne]; [done|].
    intros _. destruct (IH Hne) as (k & y & Hk & Hl & Hy & Hfirst).
    exists (S k), y. repeat split; [lia|done|done|].
    intros [|j] z Hj Hz; cbn in Hz; [congruence|].
    apply (Hfirst j); [lia|done].
Qed.

Lemma slice_prefix {A} (k : nat) (l : list A) :
  slice 0 (Z.of_nat k + 1) l = take (S k) l.
Proof.
  unfold slice. cbn [Z.to_nat drop].
  by replace (Z.to_nat (Z.of_nat k + 1)) with (S k) by lia.
Qed.

Lemma strict_eq_true a b : strict_eq a b = true ↔ a = b.
Proof. unfold strict_eq. apply bool_decide_eq_true. Qed.

Lemma strict_eq_false a b : strict_eq a b = false ↔ a ≠ b.
Proof. unfold strict_eq. apply bool_decide_eq_false. Qed.

(** What [navigateToFolder] leaves: the folder is current, the breadcrumbs
    are updated, the view is loading and a fetch of the folder is in
    flight. *)
Lemma navigateToFolder_eq folderId fName w :
  navigateToFolder folderId fName w
  = (Normal tt,
     mkWorld
       (mkState (user (st w)) (isAuthenticating (st w)) (email (st w))
          (password (st w)) (name (st w)) (isLogin (st w)) (items (st w))
          (fileToUpload (st w)) (folderName (st w)) true folderId
          (navigated folderId fName (breadcrumbPath (st w))))
       (updateFileInputRef w) (fileToUpdateIdRef w)
       (out w ++ [Request (GetFolders folderId); Request (GetFiles folderId)])
       (pending w ++ [AwaitFetch folderId])).
Proof.
  unfold navigateToFolder, fetchItems, navigated.
  destruct (strict_eq folderId Null); step_handler;
    by rewrite <- app_assoc.
Qed.

Lemma navigateToFolder_run folderId fName w :
  run (navigateToFolder folderId fName) w
  = mkWorld
      (mkState (user (st w)) (isAuthenticating (st w)) (email (st w))
         (password (st w)) (name (st w)) (isLogin (st w)) (items (st w))
         (fileToUpload (st w)) (folderName (st w)) true folderId
         (navigated folderId fName (breadcrumbPath (st w))))
      (updateFileInputRef w) (fileToUpdateIdRef w)
      (out w ++ [Request (GetFolders folderId); Request (GetFiles folderId)])
      (pending w ++ [AwaitFetch folderId]).
Proof. unfold run. by rewrite navigateToFolder_eq. Qed.

(** The three ways the breadcrumbs change. *)
Lemma navigated_cases folderId fName (p : list Crumb.t) :
  (folderId = Null ∧ navigated folderId fName p = [root])
  ∨ (folderId ≠ Null
     ∧ ∃ (k : nat) (c : Crumb.t),
         p !! k = Some c ∧ Crumb.id c = folderId
         ∧ (∀ (j : nat) (c' : Crumb.t),
              (j < k)%nat → p !! j = Some c' → Crumb.id c' ≠ folderId)
         ∧ navigated folderId fName p = take (S k) p)
  ∨ (folderId ≠ Null ∧ (folderId ∉ (Crumb.id <$> p))
     ∧ navigated folderId fName p = p ++ [Crumb.mk folderId fName]).
Proof.
  unfold navigated. destruct (strict_eq folderId Null) eqn:Hs.
  { left. by apply strict_eq_true in Hs. }
  apply strict_eq_false in Hs. right. cbn zeta.
  set (pr := λ f, strict_eq (Crumb.id f) folderId).
  destruct (Z.eqb_spec (findIndex pr p) (-1)) as [Heq|Hne]; cbn [negb].
  - right. split; [done|]. split; [|done].
    intros Hin. apply list_elem_of_fmap in Hin as (c & -> & Hc).
    pose proof (proj1 (findIndex_absent pr p) Heq c Hc) as Hf.
    unfold pr in Hf. by apply strict_eq_false in Hf.
  - left. split; [done|].
    destruct (findIndex_first pr p Hne) as (k & c & Hk & Hl & Hc & Hfirst).
    exists k, c. split; [done|]. split; [by apply strict_eq_true|].
    split.
    { intros j c' Hj Hc'. apply strict_eq_false. by apply (Hfirst j). }
    by rewrite Hk, slice_prefix.
Qed.

(** C2: [navigateToFolder] on the breadcrumbs.  With [null] the path becomes
    the single root entry.  With an id that occurs in the path, the path is
    cut after the first entry carrying it: the result is a prefix of the old
    path and ends with that entry.  With an id that does not occur, the
    entry [{id: folderId, name: folderName}] is appended.  When the path
    starts with the root entry, as every path the component builds does,
    the reset to the root is itself the prefix ending at the root entry. *)
Theorem navigateToFolder_breadcrumbs :
  ∀ (folderId : Id) (fName : string) (w : World),
    let p := breadcrumbPath (st w) in
    let p' := breadcrumbPath (st (run (navigateToFolder folderId fName) w)) in
    (folderId = Null → p' = [root])
    ∧ (folderId ≠ Null → folderId ∈ (Crumb.id <$> p) →
       ∃ (k : nat) (c : Crumb.t),
         p !! k = Some c ∧ Crumb.id c = folderId
         ∧ (∀ (j : nat) (c' : Crumb.t),
              (j < k)%nat → p !! j = Some c' → Crumb.id c' ≠ folderId)
         ∧ p' = take (S k) p ∧ p' `prefix_of` p ∧ last p' = Some c)
    ∧ (folderId ≠ Null → folderId ∉ (Crumb.id <$> p) →
       p' = p ++ [Crumb.mk folderId fName])
    ∧ (folderId = Null → head p = Some root →
       p' = take 1 p ∧ p' `prefix_of` p ∧ last p' = Some root).
Proof.
  intros folderId fName w p p'. subst p'.
  rewrite navigateToFolder_run. cbn [st breadcrumbPath]. fold p.
  destruct (navigated_cases folderId fName p)
    as [[Hn Hp]|[(Hnn & k & c & Hl & Hc & Hfirst & Hp)|(Hnn & Hnin & Hp)]];
    rewrite Hp.
  - split; [done|]. split; [congruence|]. split; [congruence|].
    intros _ Hhead. destruct p as [|c p0]; [done|].
    cbn in Hhead. injection Hhead as ->. cbn.
    split; [done|]. split; [|done]. by exists p0.
  - split; [congruence|]. split; [|split; [|congruence]].
    + intros _ _. exists k, c. repeat split; try done.
      * apply prefix_take.
      * rewrite (take_S_r _ _ _ Hl). apply last_snoc.
    + intros _ Hnin. exfalso. apply Hnin. apply list_elem_of_fmap.
      exists c. split; [done|]. by eapply list_elem_of_lookup_2.
  - split; [congruence|]. split; [|split; [done|congruence]].
    intros _ Hin. done.
Qed.

(** ** Invariants of the navigation state *)

Lemma navigated_unique folderId fName p :
  unique_ids p → unique_ids (navigated folderId fName p).
Proof.
  unfold unique_ids. intros Hp.
  destruct (navigated_cases folderId fName p)
    as [[Hn ->]|[(Hnn & k & c & Hl & Hc & Hfirst & ->)|(Hnn & Hnin & ->)]].
  - cbn. apply NoDup_singleton.
  - rewrite fmap_take. eapply sublist_NoDup; [done|apply sublist_take].
  - rewrite fmap_app. cbn. apply NoDup_app. split; [done|].
    split; [|apply NoDup_singleton].
    intros x Hx Hx'. apply list_elem_of_singleton in Hx'. by subst.
Qed.

Lemma navigated_last folderId fName p :
  navigated folderId fName p ≠ []
  ∧ Crumb.id <$> last (navigated folderId fName p) = Some folderId.
Proof.
  destruct (navigated_cases folderId fName p)
    as [[Hn ->]|[(Hnn & k & c & Hl & Hc & Hfirst & ->)|(Hnn & Hnin & ->)]].
  - by subst.
  - rewrite (take_S_r _ _ _ Hl), last_snoc. cbn. split; [|by rewrite Hc].
    by destruct (take k p).
  - rewrite last_snoc. cbn. split; [|done]. by destruct p.
Qed.

(** C9: from the root-only path, whatever folders [navigateToFolder] is
    called with and in whatever order, no two breadcrumb entries carry the
    same id. *)
Theorem breadcrumb_ids_unique :
  ∀ (calls : list (Id * string)) (w : World),
    breadcrumbPath (st w) = [root] →
    NoDup (Crumb.id <$>
             breadcrumbPath
               (st (foldl (λ w c, run (navigateToFolder c.1 c.2) w) w calls))).
Proof.
  intros calls w Hroot.
  assert (unique_ids (breadcrumbPath (st w))) as Hu.
  { rewrite Hroot. cbn. apply NoDup_singleton. }
  clear Hroot. revert w Hu.
  induction calls as [|[folderId fName] calls IH]; intros w Hu; [done|].
  cbn [foldl]. apply IH. rewrite navigateToFolder_run. cbn.
  by apply navigated_unique.
Qed.

Lemma navigated_head folderId fName p :
  head p = Some root → head (navigated folderId fName p) = Some root.
Proof.
  intros Hh.
  destruct (navigated_cases folderId fName p)
    as [[Hn ->]|[(Hnn & k & c & Hl & Hc & Hfirst & ->)|(Hnn & Hnin & ->)]].
  - done.
  - by destruct p.
  - by destruct p.
Qed.

Lemma nav_inv_root s :
  currentFolderId s = Null → breadcrumbPath s = [root] → nav_inv s.
Proof.
  intros Hc Hp. unfold nav_inv, ends_at_current, unique_ids.
  rewrite Hc, Hp. cbn. repeat split; try done. apply NoDup_singleton.
Qed.

Lemma nav_inv_same s s' :
  currentFolderId s' = currentFolderId s →
  breadcrumbPath s' = breadcrumbPath s →
  nav_inv s → nav_inv s'.
Proof.
  unfold nav_inv, ends_at_current, unique_ids. by intros -> ->.
Qed.

Lemma nav_inv_navigate folderId fName w :
  nav_inv (st w) → nav_inv (st (run (navigateToFolder folderId fName) w)).
Proof.
  intros (He & Hu & Hh). rewrite navigateToFolder_run.
  unfold nav_inv, ends_at_current. cbn [st breadcrumbPath currentFolderId].
  split; [apply navigated_last|].
  split; [by apply navigated_unique|by apply navigated_head].
Qed.

(** A handler keeps the invariant when it leaves the navigation state as
    it is or puts it back to the root. *)
Ltac nav_inv_step H :=
  first
    [ exact H
    | apply nav_inv_root; reflexivity
    | eapply nav_inv_same; [| |exact H]; reflexivity ].

Ltac nav_inv_cases H :=
  unfold run; step_handler;
  repeat (innermost_case; cbn);
  nav_inv_step H.

Lemma nav_inv_userEffect w :
  nav_inv (st w) → nav_inv (st (run userEffect w)).
Proof.
  intros H. unfold userEffect, fetchItems. nav_inv_cases H.
Qed.

Lemma nav_inv_dispatch m w :
  (∀ w, nav_inv (st w) → nav_inv (st (run m w))) →
  nav_inv (st w) → nav_inv (st (dispatch m w)).
Proof.
  intros Hm H. unfold dispatch. cbn zeta.
  case_bool_decide; [by apply Hm|]. by apply nav_inv_userEffect, Hm.
Qed.

Lemma nav_inv_handle e w :
  nav_inv (st w) → nav_inv (st (run (handle e) w)).
Proof.
  intros H. destruct e; cbn [handle].
  all: try lazymatch goal with
           | |- context [navigateToFolder] => by apply nav_inv_navigate
           end.
  all: unfold handleAuth, handleLogout, handleFileUpload, createFolder,
         handleDelete, triggerUpdateFile, handleActualFileUpdate,
         cleanupFileInput, fetchItems.
  all: nav_inv_cases H.
Qed.

(** What a successful fetch leaves: the sorted listing, and the view is no
    longer loading. *)
Lemma fetchItems_resume_resolved folderId (data : ListData * ListData) w :
  run (fetchItems_resume folderId (Resolved data)) w
  = mkWorld
      (mkState (user (st w)) (isAuthenticating (st w)) (email (st w))
         (password (st w)) (name (st w)) (isLogin (st w))
         (sort compareItems (folders_of data.1 ++ files_of data.2))
         (fileToUpload (st w)) (folderName (st w)) false
         (currentFolderId (st w)) (breadcrumbPath (st w)))
      (updateFileInputRef w) (fileToUpdateIdRef w) (out w) (pending w).
Proof. reflexivity. Qed.

(** What a failed fetch leaves, by the status of the response. *)
Lemma fetchItems_resume_401 folderId err w :
  response_status err = Some 401 →
  run (fetchItems_resume folderId (Rejected err)) w
  = mkWorld
      (mkState (user (st w)) (isAuthenticating (st w)) (email (st w))
         (password (st w)) (name (st w)) (isLogin (st w)) (items (st w))
         (fileToUpload (st w)) (folderName (st w)) false
         (currentFolderId (st w)) (breadcrumbPath (st w)))
      (updateFileInputRef w) (fileToUpdateIdRef w)
      (out w ++ [Toast Error "Failed to fetch items."; Request PostLogout;
                 Toast Info "Session expired. Please log in again."])
      (pending w ++ [AwaitLogout false]).
Proof.
  intros Hs.
  assert (status_is err 401 = true) as E401 by (unfold status_is; by rewrite Hs).
  assert (status_is err 404 = false) as E404 by (unfold status_is; by rewrite Hs).
  unfold run, fetchItems_resume, handleLogout.
  step_handler. rewrite E401, E404. step_handler. by rewrite <- !app_assoc.
Qed.

Lemma fetchItems_resume_404 folderId err w :
  response_status err = Some 404 → folderId ≠ Null →
  run (fetchItems_resume folderId (Rejected err)) w
  = mkWorld
      (mkState (user (st w)) (isAuthenticating (st w)) (email (st w))
         (password (st w)) (name (st w)) (isLogin (st w)) (items (st w))
         (fileToUpload (st w)) (folderName (st w)) false Null [root])
      (updateFileInputRef w) (fileToUpdateIdRef w)
      (out w ++ [Toast Error "Failed to fetch items.";
                 Toast Warn "Folder not found, returning to root.";
                 Request (GetFolders Null); Request (GetFiles Null)])
      (pending w ++ [AwaitFetch Null]).
Proof.
  intros Hs Hn. apply strict_eq_false in Hn.
  assert (status_is err 401 = false) as E401 by (unfold status_is; by rewrite Hs).
  assert (status_is err 404 = true) as E404 by (unfold status_is; by rewrite Hs).
  unfold run, fetchItems_resume.
  step_handler. rewrite E401, E404, Hn. step_handler.
  rewrite navigateToFolder_eq. step_handler.
  change (navigated Null "Root" (breadcrumbPath (st w))) with [root].
  by rewrite <- !app_assoc.
Qed.

Lemma fetchItems_resume_other folderId err w :
  response_status err ≠ Some 401 →
  response_status err ≠ Some 404 ∨ folderId = Null →
  run (fetchItems_resume folderId (Rejected err)) w
  = mkWorld
      (mkState (user (st w)) (isAuthenticating (st w)) (email (st w))
         (password (st w)) (name (st w)) (isLogin (st w)) (items (st w))
         (fileToUpload (st w)) (folderName (st w)) false
         (currentFolderId (st w)) (breadcrumbPath (st w)))
      (updateFileInputRef w) (fileToUpdateIdRef w)
      (out w ++ [Toast Error "Failed to fetch items."])
      (pending w).
Proof.
  intros H401 H404.
  assert (status_is err 401 = false) as E401.
  { unfold status_is. destruct (response_status err) as [c|]; [|done].
    apply Z.eqb_neq. congruence. }
  assert (status_is err 404 && negb (strict_eq folderId Null) = false) as E404.
  { destruct H404 as [H404| ->]; [|by rewrite andb_false_r].
    unfold status_is. destruct (response_status err) as [c|]; [|done].
    apply andb_false_iff. left. apply Z.eqb_neq. congruence. }
  unfold run, fetchItems_resume. step_handler. rewrite E401. step_handler.
  rewrite E404. by step_handler.
Qed.

Lemma nav_inv_fetch_rejected folderId err w :
  nav_inv (st w) →
  nav_inv (st (run (fetchItems_resume folderId (Rejected err)) w)).
Proof.
  intros H.
  destruct (decide (response_status err = Some 401)) as [H401|H401].
  { rewrite (fetchItems_resume_401 _ _ _ H401). nav_inv_step H. }
  destruct (decide (response_status err = Some 404)) as [H404|H404].
  - destruct (decide (folderId = Null)) as [Hn|Hn].
    + rewrite fetchItems_resume_other by auto. nav_inv_step H.
    + rewrite (fetchItems_resume_404 _ _ _ H404 Hn). nav_inv_step H.
  - rewrite fetchItems_resume_other by auto. nav_inv_step H.
Qed.

Lemma nav_inv_resume t r w :
  nav_inv (st w) → nav_inv (st (run (resume t r) w)).
Proof.
  intros H.
  destruct t; cbn [resume payload] in *; destruct r as [d|err].
  all: try lazymatch goal with
           | |- context [fetchItems_resume _ (Rejected _)] =>
               by apply nav_inv_fetch_rejected
           | |- context [fetchItems_resume _ (Resolved _)] =>
               rewrite fetchItems_resume_resolved; nav_inv_step H
           end.
  all: unfold handleLogout_resume, checkAuth_resume, handleAuth_resume,
         handleFileUpload_resume, createFolder_resume, handleDelete_resume,
         handleActualFileUpdate_resume, cleanupFileInput, fetchItems,
         identifier.
  all: nav_inv_cases H.
Qed.

Lemma nav_inv_exec a w : nav_inv (st w) → nav_inv (st (exec a w)).
Proof.
  intros H. destruct a as [e|t r]; cbn [exec].
  - apply nav_inv_dispatch; [apply nav_inv_handle|done].
  - case_bool_decide; [|done].
    apply nav_inv_dispatch; [apply nav_inv_resume|done].
Qed.

Lemma nav_inv_reachable w : reachable w → nav_inv (st w).
Proof.
  induction 1 as [|a w Hw IH]; [|by apply nav_inv_exec].
  apply nav_inv_root; reflexivity.
Qed.

(** C6: in every state the component can reach, by any user events and any
    settling of the requests in flight (navigation, logout and failed
    fetches among them), the breadcrumb path is not empty and the id of
    its last entry is the current folder id. *)
Theorem path_ends_at_current_folder :
  ∀ w : World,
    reachable w →
    breadcrumbPath (st w) ≠ []
    ∧ Crumb.id <$> last (breadcrumbPath (st w)) = Some (currentFolderId (st w)).
Proof.
  intros w Hw. by destruct (nav_inv_reachable w Hw) as [He _].
Qed.

(** ** Mutations and the refetch that follows them *)

Lemma fetchItems_eq folderId w :
  fetchItems folderId w
  = (Normal tt,
     mkWorld
       (mkState (user (st w)) (isAuthenticating (st w)) (email (st w))
          (password (st w)) (name (st w)) (isLogin (st w)) (items (st w))
          (fileToUpload (st w)) (folderName (st w)) true
          (currentFolderId (st w)) (breadcrumbPath (st w)))
       (updateFileInputRef w) (fileToUpdateIdRef w)
       (out w ++ [Request (GetFolders folderId); Request (GetFiles folderId)])
       (pending w ++ [AwaitFetch folderId])).
Proof. unfold fetchItems. step_handler. by rewrite <- app_assoc. Qed.

(** Folder creation, deletion and content replacement do start the fetch of
    the folder their closure captured once the server has accepted the
    request. *)
Lemma createFolder_success_refetches fName targetParentId w :
  let w' := run (resume (AwaitCreate fName targetParentId) (Resolved tt)) w in
  pending w' = pending w ++ [AwaitFetch targetParentId]
  ∧ out w' = out w ++ [Toast Success ("Folder '" +:+ fName +:+ "' created.");
                       Request (GetFolders targetParentId);
                       Request (GetFiles targetParentId)].
Proof.
  cbn [resume]. unfold run, createFolder_resume. step_handler.
  rewrite fetchItems_eq. cbn. by rewrite <- !app_assoc.
Qed.

Lemma handleDelete_success_refetches isFolder itemName folderToRefetch w :
  let w' :=
    run (resume (AwaitDelete isFolder itemName folderToRefetch) (Resolved tt)) w in
  pending w' = pending w ++ [AwaitFetch folderToRefetch]
  ∧ out w'
    = out w ++ [Toast Success ((if isFolder then "Folder" else "File")
                               +:+ " '" +:+ itemName +:+ "' deleted.");
                Request (GetFolders folderToRefetch);
                Request (GetFiles folderToRefetch)].
Proof.
  cbn [resume]. unfold run, handleDelete_resume. step_handler.
  rewrite fetchItems_eq. cbn. by rewrite <- !app_assoc.
Qed.

Lemma handleActualFileUpdate_success_refetches folderToRefetch message w :
  let w' := run (resume (AwaitUpdate folderToRefetch) (Resolved message)) w in
  pending w' = pending w ++ [AwaitFetch folderToRefetch]
  ∧ Request (GetFolders folderToRefetch) ∈ out w'
  ∧ Request (GetFiles folderToRefetch) ∈ out w'.
Proof.
  cbn [resume]. unfold run, handleActualFileUpdate_resume, cleanupFileInput.
  step_handler. rewrite fetchItems_eq. step_handler.
  destruct (updateFileInputRef w); cbn;
    (split; [done|]); rewrite !elem_of_app, !elem_of_cons; naive_solver.
Qed.

(** C1 fails for the upload: when the server has accepted the upload, the
    continuation shows the success toast and then evaluates the argument of
    the [fetchItems] call, [targetFolderIdnull], which is bound nowhere.
    The [ReferenceError] lands in the handler's own [catch]: the user is
    told that the upload failed, loading is switched off, and no fetch is
    started, so the listing is not refreshed. *)
Theorem handleFileUpload_success_never_refetches :
  ∀ (fileName : string) (targetFolderId : Id) (w : World),
    let w' :=
      run (resume (AwaitUpload fileName targetFolderId) (Resolved tt)) w in
    pending w' = pending w
    ∧ out w' = out w ++ [Toast Success ("File '" +:+ fileName +:+ "' uploaded.");
                         Toast Error "File upload failed."]
    ∧ isLoading (st w') = false
    ∧ items (st w') = items (st w).
Proof.
  intros fileName targetFolderId w. cbn [resume].
  unfold run, handleFileUpload_resume, identifier. step_handler.
  by rewrite <- !app_assoc.
Qed.

(** ** Deleting *)

Lemma deletes_confirmed_weaken b l :
  deletes_confirmed false l = true → deletes_confirmed b l = true.
Proof.
  destruct l as [|e l]; [done|]. cbn. intros [H1 H2]%andb_true_iff.
  apply andb_true_iff. split; [|done]. by destruct e as [[]| |].
Qed.

Lemma deletes_confirmed_app b l c :
  deletes_confirmed b l = true → deletes_confirmed false c = true →
  deletes_confirmed b (l ++ c) = true.
Proof.
  revert b. induction l as [|e l IH]; intros b Hl Hc; cbn.
  - by apply deletes_confirmed_weaken.
  - cbn in Hl. apply andb_true_iff in Hl as [H1 H2].
    apply andb_true_iff. split; [done|]. by apply IH.
Qed.

Ltac appended :=
  cbn; rewrite <- ?app_assoc; cbn [app];
  first [ by (exists []; rewrite app_nil_r)
        | by (eexists; split; [reflexivity|]) ].

Ltac appends_cases :=
  intros w; unfold run; step_handler;
  repeat (innermost_case; cbn);
  appended.

Lemma appends_userEffect : appends_confirmed userEffect.
Proof. unfold userEffect, fetchItems. appends_cases. Qed.

Lemma appends_handle e : appends_confirmed (handle e).
Proof.
  destruct e; cbn [handle].
  all: unfold navigateToFolder, handleAuth, handleLogout, handleFileUpload,
         createFolder, handleDelete, triggerUpdateFile, handleActualFileUpdate,
         cleanupFileInput, fetchItems, confirmationMessage.
  all: appends_cases.
Qed.

Lemma appends_fetch_rejected folderId err :
  appends_confirmed (fetchItems_resume folderId (Rejected err)).
Proof.
  intros w.
  destruct (decide (response_status err = Some 401)) as [H401|H401].
  { rewrite (fetchItems_resume_401 _ _ _ H401). appended. }
  destruct (decide (response_status err = Some 404)) as [H404|H404].
  - destruct (decide (folderId = Null)) as [Hn|Hn].
    + rewrite fetchItems_resume_other by auto. appended.
    + rewrite (fetchItems_resume_404 _ _ _ H404 Hn). appended.
  - rewrite fetchItems_resume_other by auto. appended.
Qed.

Lemma appends_resume t r : appends_confirmed (resume t r).
Proof.
  destruct t; cbn [resume payload] in *; destruct r as [d|err].
  all: try lazymatch goal with
           | |- context [fetchItems_resume _ (Rejected _)] =>
               by apply appends_fetch_rejected
           | |- context [fetchItems_resume _ (Resolved _)] =>
               intros w; rewrite fetchItems_resume_resolved; appended
           end.
  all: unfold handleLogout_resume, checkAuth_resume, handleAuth_resume,
         handleFileUpload_resume, createFolder_resume, handleDelete_resume,
         handleActualFileUpdate_resume, cleanupFileInput, fetchItems,
         identifier.
  all: appends_cases.
Qed.

Lemma deletes_confirmed_dispatch m w :
  appends_confirmed m →
  deletes_confirmed false (out w) = true →
  deletes_confirmed false (out (dispatch m w)) = true.
Proof.
  intros Hm Hw. unfold dispatch. cbn zeta.
  destruct (Hm w) as (c & Hc & Hdc).
  assert (deletes_confirmed false (out (run m w)) = true) as Hrun.
  { rewrite Hc. by apply deletes_confirmed_app. }
  case_bool_decide; [done|].
  destruct (appends_userEffect (run m w)) as (c' & Hc' & Hdc').
  rewrite Hc'. by apply deletes_confirmed_app.
Qed.

Lemma deletes_confirmed_reachable w :
  reachable w → deletes_confirmed false (out w) = true.
Proof.
  induction 1 as [|a w Hw IH]; [done|].
  destruct a as [e|t r]; cbn [exec].
  - apply deletes_confirmed_dispatch; [apply appends_handle|done].
  - case_bool_decide; [|done].
    apply deletes_confirmed_dispatch; [apply appends_resume|done].
Qed.

(** C7: [handleDelete] sends the DELETE request only after
    [window.confirm] has been shown and answered positively, the prompt
    being the effect right before the request; when the user declines,
    nothing is sent, nothing is put in flight and the state and the refs
    are as they were (only the prompt was shown).  No other handler sends
    a DELETE request: in the trace of every run of the component, each
    DELETE request stands right after a delete prompt answered
    positively. *)
Theorem handleDelete_requires_confirmation :
  (∀ (item : Item.t) (answer : bool) (w : World),
     let w' := run (handleDelete item answer) w in
     ∃ emitted : list Effect,
       out w' = out w ++ emitted
       ∧ (∀ e, e ∈ emitted → is_delete e →
            answer = true
            ∧ ∃ endpoint,
                emitted
                = [Confirm (confirmationMessage
                              (bool_decide (Item.type item = folder))
                              (Item.name item)) true;
                   Request (Delete endpoint (Item.id item))])
       ∧ (answer = false →
            st w' = st w ∧ pending w' = pending w
            ∧ updateFileInputRef w' = updateFileInputRef w
            ∧ fileToUpdateIdRef w' = fileToUpdateIdRef w
            ∧ Forall (λ e, ¬ is_request e) emitted))
  ∧ (∀ w : World, reachable w → deletes_confirmed false (out w) = true).
Proof.
  split; [|exact deletes_confirmed_reachable].
  intros item answer w. unfold run, handleDelete. step_handler.
  destruct (isLoading (st w)) eqn:Hl; step_handler.
  { exists []. rewrite app_nil_r. split; [done|]. split.
    - intros e He. by apply elem_of_nil in He.
    - intros _. by repeat split. }
  destruct answer; step_handler.
  - eexists [_; _]. rewrite <- !app_assoc. split; [reflexivity|].
    split; [|done]. intros e He Hd. split; [done|]. eauto.
  - eexists [_]. split; [reflexivity|]. split.
    + intros e He Hd. apply list_elem_of_singleton in He. by subst.
    + intros _. destruct w as [[] ? ? ? ?]; cbn in *. subst.
      repeat split. apply Forall_singleton. cbn. tauto.
Qed.

Lemma reachable_execs l w : reachable w → reachable (execs l w).
Proof.
  revert w. induction l as [|a l IH]; intros w Hw; [done|].
  cbn. apply IH. by constructor.
Qed.

(** ** Failed fetches *)

(** C8, as the code has it: the fallback is guarded by [folderId !== null].
    A fetch of a folder other than the root that fails with status 404
    warns the user and navigates to the root: the root is the current
    folder, the breadcrumbs are the root entry alone, and the fetch of the
    root is in flight.  When it is the fetch of the root that fails with
    404, there is only the generic error toast: no warning, no navigation,
    the navigation state stays as it is. *)
Theorem fetch_404_falls_back_to_root :
  ∀ (folderId : Id) (err : Exn) (w : World),
    response_status err = Some 404 →
    let w' := run (resume (AwaitFetch folderId) (Rejected err)) w in
    (folderId ≠ Null →
       currentFolderId (st w') = Null
       ∧ breadcrumbPath (st w') = [root]
       ∧ out w' = out w ++ [Toast Error "Failed to fetch items.";
                            Toast Warn "Folder not found, returning to root.";
                            Request (GetFolders Null); Request (GetFiles Null)]
       ∧ pending w' = pending w ++ [AwaitFetch Null])
    ∧ (folderId = Null →
         currentFolderId (st w') = currentFolderId (st w)
         ∧ breadcrumbPath (st w') = breadcrumbPath (st w)
         ∧ out w' = out w ++ [Toast Error "Failed to fetch items."]
         ∧ pending w' = pending w).
Proof.
  intros folderId err w Hs. cbn [resume]. cbn zeta. split.
  - intros Hn. by rewrite (fetchItems_resume_404 _ _ _ Hs Hn).
  - intros ->. rewrite fetchItems_resume_other; [done|congruence|by right].
Qed.

Lemma dispatch_same_deps m w :
  deps (st (run m w)) = deps (st w) → dispatch m w = run m w.
Proof. intros H. unfold dispatch. cbn zeta. by rewrite bool_decide_eq_true_2. Qed.

(** What the settling of a logout leaves, with the effect that follows the
    render. *)
Lemma logout_settled_state showToast r w :
  let w' := dispatch (resume (AwaitLogout showToast) r) w in
  user (st w') = None
  ∧ (is_Some (user (st w)) → items (st w') = [])
  ∧ (user (st w) = None → items (st w') = items (st w)).
Proof.
  cbn zeta. unfold dispatch. cbn [resume]. cbn zeta.
  destruct (handleLogout_resume_state showToast r w) as [Hst Hp].
  case_bool_decide as Hd.
  - rewrite Hst. cbn. rewrite Hst in Hd. unfold deps in Hd. cbn in Hd.
    split; [done|]. split; [|done].
    intros [u Hu]. rewrite Hu in Hd. congruence.
  - destruct (userEffect_no_user (run (handleLogout_resume showToast r) w))
      as [He _]; [by rewrite Hst|].
    rewrite He. cbn. split; [done|]. split; [done|].
    intros Hu. exfalso. apply Hd. rewrite Hst. unfold deps. cbn. by rewrite Hu.
Qed.

Lemma remove_first_snoc t (l : list Task) :
  t ∉ l → remove_first t (l ++ [t]) = l.
Proof.
  induction l as [|t' l IH]; cbn; intros Hn.
  - by rewrite bool_decide_eq_true_2.
  - rewrite bool_decide_eq_false_2.
    + f_equal. apply IH. intros H. apply Hn. by apply list_elem_of_further.
    + intros ->. apply Hn. apply list_elem_of_here.
Qed.

(** The failure itself clears nothing: a fetch that fails with status 401
    leaves the user and the item list as they are and starts the silent
    logout; the clearing is left to the continuation of that logout and to
    the effect on the user. *)
Lemma fetch_401_clears_nothing_itself folderId err w :
  response_status err = Some 401 →
  AwaitFetch folderId ∈ pending w →
  let w1 := exec (Settle (AwaitFetch folderId) (Rejected err)) w in
  user (st w1) = user (st w)
  ∧ items (st w1) = items (st w)
  ∧ pending w1 = remove_first (AwaitFetch folderId) (pending w)
                 ++ [AwaitLogout false].
Proof.
  intros Hs Hin. cbn zeta. cbn [exec]. rewrite bool_decide_eq_true_2 by done.
  rewrite dispatch_same_deps; cbn [resume];
    by rewrite (fetchItems_resume_401 _ _ _ Hs).
Qed.

(** A logout that settles when the user is null already clears nothing:
    [setUser(null)] changes no dependency of the effect, which therefore
    does not run. *)
Lemma late_logout_clears_nothing showToast r w :
  user (st w) = None →
  let w2 := exec (Settle (AwaitLogout showToast) r) w in
  user (st w2) = None ∧ items (st w2) = items (st w).
Proof.
  intros Hu. cbn zeta. cbn [exec]. case_bool_decide; [|done].
  destruct (logout_settled_state showToast r
              (settled (AwaitLogout showToast) w)) as (Hnone & _ & Hkeep).
  split; [done|]. by apply Hkeep.
Qed.

(** When the logout that a failed fetch starts is the next request to
    settle, the state is cleared: the user is null, and the item list is
    emptied by the effect that runs because the user changed, provided a
    session existed when the fetch failed or the list was empty already.
    Nothing makes that logout settle next. *)
Lemma fetch_401_clears_session :
  ∀ (folderId : Id) (err : Exn) (r : Reply unit) (w : World),
    response_status err = Some 401 →
    AwaitFetch folderId ∈ pending w →
    (user (st w) = None → items (st w) = []) →
    let w1 := exec (Settle (AwaitFetch folderId) (Rejected err)) w in
    let w2 := exec (Settle (AwaitLogout false) r) w1 in
    AwaitLogout false ∈ pending w1
    ∧ Toast Info "Session expired. Please log in again." ∈ out w1
    ∧ user (st w2) = None
    ∧ items (st w2) = [].
Proof.
  intros folderId err r w Hs Hin Hcoh. cbn zeta.
  assert (exec (Settle (AwaitFetch folderId) (Rejected err)) w
          = run (fetchItems_resume folderId (Rejected err))
              (settled (AwaitFetch folderId) w)) as Hw1.
  { cbn [exec]. rewrite bool_decide_eq_true_2 by done.
    apply dispatch_same_deps. cbn [resume].
    by rewrite (fetchItems_resume_401 _ _ _ Hs). }
  rewrite Hw1, (fetchItems_resume_401 _ _ _ Hs).
  set (w1 := mkWorld _ _ _ _ _).
  assert (AwaitLogout false ∈ pending w1) as Hin1.
  { subst w1. cbn. apply elem_of_app. right. apply list_elem_of_here. }
  split; [done|]. split.
  { subst w1. cbn. rewrite elem_of_app, !elem_of_cons. naive_solver. }
  cbn [exec]. rewrite bool_decide_eq_true_2 by done.
  destruct (logout_settled_state false r (settled (AwaitLogout false) w1))
    as (Hu & Hsome & Hnone).
  split; [done|].
  destruct (user (st w)) as [u|] eqn:Huser.
  - apply Hsome. subst w1. cbn. rewrite Huser. eauto.
  - rewrite Hnone; subst w1; cbn; [by apply Hcoh|done].
Qed.

(** ** The order of the listing *)

Section Sorting.

Context {A : Type} (cmp : A → A → Z).

(** [cmp] is a consistent comparator when "not after" is total and
    transitive. *)
Hypothesis cmp_total : ∀ a b, cmp a b ≤ 0 ∨ cmp b a ≤ 0.
Hypothesis cmp_trans : ∀ a b c, cmp a b ≤ 0 → cmp b c ≤ 0 → cmp a c ≤ 0.

Lemma insert_sorted_perm x (l : list A) : insert_sorted cmp x l ≡ₚ x :: l.
Proof.
  induction l as [|y l IH]; cbn [insert_sorted]; [done|].
  destruct (cmp x y <=? 0); [done|].
  rewrite IH. apply Permutation_swap.
Qed.

Lemma sort_perm (l : list A) : sort cmp l ≡ₚ l.
Proof.
  induction l as [|x l IH]; cbn [sort]; [done|].
  by rewrite insert_sorted_perm, IH.
Qed.

Lemma insert_sorted_StronglySorted x (l : list A) :
  StronglySorted (λ a b, cmp a b ≤ 0) l →
  StronglySorted (λ a b, cmp a b ≤ 0) (insert_sorted cmp x l).
Proof.
  induction 1 as [|y l Hl IH Hy]; cbn [insert_sorted].
  - repeat constructor.
  - destruct (Z.leb_spec (cmp x y) 0) as [Hxy|Hxy].
    + constructor; [by constructor|]. constructor; [done|].
      eapply Forall_impl; [exact Hy|]. intros z Hz. cbn in Hz.
      by eapply cmp_trans.
    + constructor; [done|]. rewrite insert_sorted_perm.
      constructor; [|done]. destruct (cmp_total x y); [lia|done].
Qed.

Lemma sort_StronglySorted (l : list A) :
  StronglySorted (λ a b, cmp a b ≤ 0) (sort cmp l).
Proof.
  induction l as [|x l IH]; cbn [sort]; [constructor|].
  by apply insert_sorted_StronglySorted.
Qed.

End Sorting.

Lemma StronglySorted_lookup_lt {A} (R : A → A → Prop) (l : list A) i j a b :
  StronglySorted R l → (i < j)%nat →
  l !! i = Some a → l !! j = Some b → R a b.
Proof.
  intros Hl. revert i j. induction Hl as [|x l Hl IH Hx]; intros i j Hij Hi Hj.
  - done.
  - destruct j as [|j]; [lia|]. cbn in Hj. destruct i as [|i]; cbn in Hi.
    + injection Hi as ->. rewrite Forall_forall in Hx. apply Hx.
      by eapply list_elem_of_lookup_2.
    + apply (IH i j); [lia|done|done].
Qed.

Section ListingOrder.

(** The host's collation orders the strings: it is total and transitive. *)
Hypothesis localeCompare_total :
  ∀ a b, localeCompare a b ≤ 0 ∨ localeCompare b a ≤ 0.
Hypothesis localeCompare_trans :
  ∀ a b c, localeCompare a b ≤ 0 → localeCompare b c ≤ 0 →
           localeCompare a c ≤ 0.

Lemma compareItems_total a b : compareItems a b ≤ 0 ∨ compareItems b a ≤ 0.
Proof.
  unfold compareItems.
  destruct (Item.type a), (Item.type b); try (left; lia); try (right; lia);
    apply localeCompare_total.
Qed.

Lemma compareItems_trans a b c :
  compareItems a b ≤ 0 → compareItems b c ≤ 0 → compareItems a c ≤ 0.
Proof.
  unfold compareItems.
  destruct (Item.type a), (Item.type b), (Item.type c);
    try lia; apply localeCompare_trans.
Qed.

(** C3: the list a successful fetch stores holds exactly the fetched
    folders and files, each tagged with its type; every folder stands
    before every file; and two items of the same type stand in ascending
    order of their names under [localeCompare]. *)
Theorem fetchItems_orders_items :
  ∀ (folderId : Id) (data : ListData * ListData) (w : World),
    let l := items (st (run (resume (AwaitFetch folderId) (Resolved data)) w)) in
    l ≡ₚ folders_of data.1 ++ files_of data.2
    ∧ (∀ (i j : nat) (a b : Item.t),
         l !! i = Some a → l !! j = Some b →
         Item.type a = folder → Item.type b = file → (i < j)%nat)
    ∧ (∀ (i j : nat) (a b : Item.t),
         (i < j)%nat → l !! i = Some a → l !! j = Some b →
         Item.type a = Item.type b →
         localeCompare (Item.name a) (Item.name b) ≤ 0).
Proof.
  intros folderId data w. cbn [resume]. rewrite fetchItems_resume_resolved.
  cbn [st items]. set (input := folders_of data.1 ++ files_of data.2).
  pose proof (sort_StronglySorted compareItems compareItems_total
                compareItems_trans input) as Hs.
  split; [apply sort_perm|]. split.
  - intros i j a b Hi Hj Ha Hb.
    destruct (Nat.lt_trichotomy i j) as [Hlt|[->|Hgt]]; [done| |].
    + rewrite Hi in Hj. injection Hj as ->. congruence.
    + pose proof (StronglySorted_lookup_lt _ _ j i b a Hs Hgt Hj Hi) as Hle.
      cbn in Hle. unfold compareItems in Hle. rewrite Ha, Hb in Hle. lia.
  - intros i j a b Hij Hi Hj Hty.
    pose proof (StronglySorted_lookup_lt _ _ i j a b Hs Hij Hi Hj) as Hle.
    cbn in Hle. unfold compareItems in Hle. rewrite Hty in Hle.
    by destruct (Item.type b).
Qed.

End ListingOrder.

End Properties.

(** ** The unit of [formatBytes] *)

(** [floor_log2] is the floor of the binary logarithm: with [e] its value
    at [n/d], [2^e <= n/d < 2^(e+1)]. *)
Lemma floor_log2_exact (q : Q) :
  (0 < q)%Q →
  let n := Qnum q in
  let d := Z.pos (Qden q) in
  let e := floor_log2 q in
  (0 ≤ e → 2 ^ e * d ≤ n < 2 ^ (e + 1) * d)
  ∧ (e < 0 → d ≤ n * 2 ^ (- e) ∧ n * 2 ^ (- e - 1) < d).
Proof.
  destruct q as [n d]. unfold Qlt, floor_log2. cbn [Qnum Qden].
  rewrite Z.mul_1_r. cbn [Z.mul]. intros Hn. cbn zeta.
  pose proof (Z.log2_spec n Hn) as [Ha1 Ha2].
  pose proof (Z.log2_spec (Z.pos d) (Pos2Z.is_pos d)) as [Hb1 Hb2].
  pose proof (Z.log2_nonneg n) as Ha0.
  pose proof (Z.log2_nonneg (Z.pos d)) as Hb0.
  set (a := Z.log2 n) in *. set (b := Z.log2 (Z.pos d)) in *.
  set (D := Z.pos d) in *.
  assert (0 < D) as HD by (subst D; lia).
  destruct (Z.leb_spec 0 (a - b)) as [He|He].
  - (* a >= b *)
    assert (2 ^ (a + 1) = 2 ^ (a - b + 1) * 2 ^ b) as E1.
    { rewrite <- Z.pow_add_r by lia. f_equal. lia. }
    destruct (Z.leb_spec (2 ^ (a - b) * D) n) as [Ht|Ht].
    + split; [|lia]. intros _. split; [done|]. 
      assert (0 < 2 ^ (a - b + 1)) by (apply Z.pow_pos_nonneg; lia). nia.
    + destruct (Z.eq_dec a b) as [Eab|Nab].
      * clearbody a b. subst b. replace (a - a) with 0 in * by lia.
        split; [lia|]. intros _.
        change (2 ^ (- (0 - 1))) with 2. change (2 ^ (- (0 - 1) - 1)) with 1.
        change (2 ^ 0) with 1 in Ht.
        rewrite Z.pow_succ_r in Hb2 by lia. lia.
      * split; [|lia]. intros _. replace (a - b - 1 + 1) with (a - b) by lia.
        split; [|done].
        assert (2 ^ a = 2 ^ (a - b - 1) * 2 ^ (b + 1)) as E2.
        { rewrite <- Z.pow_add_r by lia. f_equal. lia. }
        assert (0 < 2 ^ (a - b - 1)) by (apply Z.pow_pos_nonneg; lia). nia.
  - (* a < b *)
    destruct (Z.leb_spec D (n * 2 ^ (- (a - b)))) as [Ht|Ht].
    + split; [lia|]. intros _. split; [done|].
      assert (2 ^ b = 2 ^ (a + 1) * 2 ^ (- (a - b) - 1)) as E.
      { rewrite <- Z.pow_add_r by lia. f_equal. lia. }
      assert (0 < 2 ^ (- (a - b) - 1)) by (apply Z.pow_pos_nonneg; lia). nia.
    + split; [lia|]. intros _.
      replace (- (a - b - 1) - 1) with (- (a - b)) by lia.
      split; [|done].
      assert (2 ^ (b + 1) = 2 ^ a * 2 ^ (- (a - b - 1))) as E.
      { rewrite <- Z.pow_add_r by lia. f_equal. lia. }
      assert (0 < 2 ^ (- (a - b - 1))) by (apply Z.pow_pos_nonneg; lia). nia.
Qed.

Lemma floor_log2_sign (q : Q) :
  (0 < q)%Q →
  ((1 <= q)%Q → 0 ≤ floor_log2 q) ∧ ((q < 1)%Q → floor_log2 q < 0).
Proof.
  destruct q as [n d]. unfold Qlt, Qle, floor_log2. cbn [Qnum Qden].
  rewrite !Z.mul_1_r, !Z.mul_1_l. cbn [Z.mul]. intros Hn.
  set (e := Z.log2 n - Z.log2 (Z.pos d)).
  split; intros H.
  - assert (0 ≤ e) as He.
    { pose proof (Z.log2_le_mono (Z.pos d) n H). lia. }
    destruct (Z.leb_spec 0 e) as [_|?]; [|lia].
    destruct (Z.leb_spec (2 ^ e * Z.pos d) n) as [_|Hlt]; [done|].
    destruct (Z.eq_dec e 0) as [E|]; [|lia].
    rewrite E in Hlt. cbn in Hlt. lia.
  - assert (e ≤ 0) as He.
    { pose proof (Z.log2_le_mono n (Z.pos d)). lia. }
    destruct (Z.leb_spec 0 e) as [He0|He0].
    + assert (e = 0) as E by lia.
      destruct (Z.leb_spec (2 ^ e * Z.pos d) n) as [Hle|_]; [|lia].
      rewrite E in Hle. cbn in Hle. lia.
    + destruct (Z.pos d <=? n * 2 ^ (- e)); lia.
Qed.

Lemma floor_log_1024_at_least_one (q : Q) :
  (1 <= q)%Q → ∃ z, floor_log_1024 (Finite q) = Int z ∧ 0 ≤ z.
Proof.
  intros H. assert (0 < q)%Q as Hpos.
  { eapply Qlt_le_trans; [|exact H]. reflexivity. }
  cbn [floor_log_1024]. rewrite (proj1 (Qgt_alt q 0) Hpos).
  eexists. split; [reflexivity|].
  pose proof (proj1 (floor_log2_sign q Hpos) H).
  apply Z.div_pos; lia.
Qed.

Lemma floor_log_1024_below_one (q : Q) :
  (0 < q)%Q → (q < 1)%Q → ∃ z, floor_log_1024 (Finite q) = Int z ∧ z < 0.
Proof.
  intros Hpos H. cbn [floor_log_1024]. rewrite (proj1 (Qgt_alt q 0) Hpos).
  eexists. split; [reflexivity|].
  pose proof (proj2 (floor_log2_sign q Hpos) H).
  apply Z.div_lt_upper_bound; lia.
Qed.

(** Below one byte the index is negative and [sizes[index]] is
    [undefined]: the clamp is from above only. *)
Lemma formatBytes_below_one (q : Q) :
  (0 < q)%Q → (q < 1)%Q →
  ∃ z : Z,
    Math_min (floor_log_1024 (Finite q)) 4 = Int z ∧ z < 0
    ∧ element sizes (Int z) = None.
Proof.
  intros Hpos Hlt.
  destruct (floor_log_1024_below_one q Hpos Hlt) as (z & -> & Hz).
  cbn [Math_min]. exists (Z.min z 4). split; [done|]. split; [lia|].
  cbn [element]. destruct (Z.leb_spec 0 (Z.min z 4)); [lia|done].
Qed.


(** * Concrete runs *)

#[local] Existing Instance codeUnit.

Lemma codeUnitCompare_total a b :
  codeUnitCompare a b ≤ 0 ∨ codeUnitCompare b a ≤ 0.
Proof.
  unfold codeUnitCompare.
  destruct (String_as_OT.compare_spec a b) as [->|Hlt|Hgt].
  - left. lia.
  - left. lia.
  - right. unfold String_as_OT.lt in Hgt. rewrite Hgt. lia.
Qed.

Lemma codeUnitCompare_nonpos a b :
  codeUnitCompare a b ≤ 0 ↔ a = b ∨ String_as_OT.lt a b.
Proof.
  unfold codeUnitCompare.
  destruct (String_as_OT.compare_spec a b) as [->|Hlt|Hgt].
  - split; [by left|lia].
  - split; [by right|lia].
  - split; [lia|]. intros [->|Hlt]; exfalso.
    + by apply (StrictOrder_Irreflexive b).
    + apply (StrictOrder_Irreflexive a).
      by apply (StrictOrder_Transitive a b a).
Qed.

Lemma codeUnitCompare_trans a b c :
  codeUnitCompare a b ≤ 0 → codeUnitCompare b c ≤ 0 → codeUnitCompare a c ≤ 0.
Proof.
  rewrite !codeUnitCompare_nonpos.
  intros [->|Hab] [->|Hbc]; auto.
  right. by apply (StrictOrder_Transitive a b c).
Qed.

(** The functions on small inputs. *)
Example navigated_down :
  navigated (IdNum 4) "2024" [root; Crumb.mk (IdNum 1) "docs"]
  = [root; Crumb.mk (IdNum 1) "docs"; Crumb.mk (IdNum 4) "2024"].
Proof. reflexivity. Qed.

Example navigated_up :
  navigated (IdNum 1) "docs"
    [root; Crumb.mk (IdNum 1) "docs"; Crumb.mk (IdNum 4) "2024"]
  = [root; Crumb.mk (IdNum 1) "docs"].
Proof. reflexivity. Qed.

Example navigated_root :
  navigated Null "Root"
    [root; Crumb.mk (IdNum 1) "docs"; Crumb.mk (IdNum 4) "2024"]
  = [root].
Proof. reflexivity. Qed.

Example sort_listing :
  sort compareItems [tag file todo; tag folder pics; tag file notes; tag folder docs]
  = [tag folder docs; tag folder pics; tag file notes; tag file todo].
Proof. by vm_compute. Qed.

Example unit_indices :
  (λ q, Math_min (floor_log_1024 (Finite q)) 4)
    <$> [1 # 1; 1023 # 1; 1024 # 1; 1048576 # 1; 1125899906842624 # 1;
         1180591620717411303424 # 1; 1 # 2; 1 # 2000]%Q
  = [Int 0; Int 0; Int 1; Int 2; Int 4; Int 4; Int (-1); Int (-2)].
Proof. by vm_compute. Qed.

Example upload_then_success :
  let w := execs (browsing ++ [UI (SelectFile (Some "a.png")); UI ClickUpload;
                               Settle (AwaitUpload "a.png" Null) (Resolved tt)])
             mount in
  pending w = []
  ∧ last (out w) = Some (Toast Error "File upload failed.")
  ∧ items (st w) = items (st (execs browsing mount)).
Proof. by vm_compute. Qed.

(** [fetchItems_orders_items] at the root listing, under the code unit
    order. *)
Lemma fetchItems_orders_items_witness :
  (∀ a b, codeUnitCompare a b ≤ 0 ∨ codeUnitCompare b a ≤ 0)
  ∧ (∀ a b c, codeUnitCompare a b ≤ 0 → codeUnitCompare b c ≤ 0 →
              codeUnitCompare a c ≤ 0)
  ∧ items (st (execs browsing mount))
    = [tag folder docs; tag folder pics; tag file notes; tag file todo]
  ∧ let l :=
      items (st (run (resume (AwaitFetch Null)
                        (Resolved (DataArray [pics; docs],
                                   DataArray [todo; notes])))
                   mount)) in
    l ≡ₚ folders_of (DataArray [pics; docs]) ++ files_of (DataArray [todo; notes])
    ∧ (∀ (i j : nat) (a b : Item.t),
         l !! i = Some a → l !! j = Some b →
         Item.type a = folder → Item.type b = file → (i < j)%nat)
    ∧ (∀ (i j : nat) (a b : Item.t),
         (i < j)%nat → l !! i = Some a → l !! j = Some b →
         Item.type a = Item.type b →
         codeUnitCompare (Item.name a) (Item.name b) ≤ 0).
Proof.
  split; [exact codeUnitCompare_total|].
  split; [exact codeUnitCompare_trans|].
  split; [by vm_compute|].
  exact (fetchItems_orders_items (rt := codeUnit) codeUnitCompare_total
           codeUnitCompare_trans Null
           (DataArray [pics; docs], DataArray [todo; notes]) mount).
Defined.

(** C5 fails in the code.  The comments say what is meant: the 401 branch
    calls [handleLogout] to clear the state, [setUser(null)] triggers the
    cleanup effect, and that effect clears the items.  But the failure
    clears nothing itself (first part), and the logout it starts clears
    nothing when it finds the user null already, because the effect does
    not run then (second part).  Since requests are never cancelled and a
    listing is stored without a look at the session, this happens in a
    run the user can drive (third part): Ann opens docs and, while that
    listing is loading, pics; the fetch of pics fails with 401 while she
    is signed in and four items are listed; she clicks Logout, and that
    logout settles first; the listing of docs, answered earlier, arrives
    and is stored; the silent logout settles last.  Every request has
    settled, there is no session, and the file of docs is still listed. *)
Theorem session_401_keeps_stale_items :
  (∀ (rt : Runtime) (folderId : Id) (err : Exn) (w : World),
     response_status err = Some 401 →
     AwaitFetch folderId ∈ pending w →
     let w1 := exec (rt := rt) (Settle (AwaitFetch folderId) (Rejected err)) w in
     user (st w1) = user (st w)
     ∧ items (st w1) = items (st w)
     ∧ pending w1 = remove_first (AwaitFetch folderId) (pending w)
                    ++ [AwaitLogout false])
  ∧ (∀ (rt : Runtime) (r : Reply unit) (w : World),
       user (st w) = None →
       let w2 := exec (rt := rt) (Settle (AwaitLogout false) r) w in
       user (st w2) = None ∧ items (st w2) = items (st w))
  ∧ (let at_failure := execs two_listings_loading mount in
     let at_end := execs expired_while_browsing mount in
     feasible expired_while_browsing mount = true
     ∧ user (st at_failure) = Some ann
     ∧ length (items (st at_failure)) = 4%nat
     ∧ AwaitFetch (IdNum 2) ∈ pending at_failure
     ∧ pending at_end = []
     ∧ user (st at_end) = None
     ∧ items (st at_end) = [tag file notes]).
Proof.
  split; [|split].
  - intros rt folderId err w. apply fetch_401_clears_nothing_itself.
  - intros rt r w. apply late_logout_clears_nothing.
  - cbn zeta. repeat split; try by vm_compute.
    apply (bool_decide_unpack _). by vm_compute.
Qed.

(** The same with the failure after the logout.  Ann opens docs and, while
    that listing is loading, pics; then she logs out, and the logout
    settles first: the user is null and the effect empties the list.  The
    listing of docs, answered before the logout, arrives next and is
    stored.  Then the fetch of pics fails with 401: the silent logout it
    starts finds the user null already, so no effect runs, and the items
    of docs stay in the state although there is no session. *)
Lemma stale_items_survive_401 :
  let w := execs overlapping mount in
  let w1 := exec
              (Settle (AwaitFetch (IdNum 2))
                 (Rejected (AxiosError (Some 401) None))) w in
  let w2 := exec (Settle (AwaitLogout false) (Resolved tt)) w1 in
  feasible overlapping mount = true
  ∧ pending w = [AwaitFetch (IdNum 2)]
  ∧ pending w1 = [AwaitLogout false]
  ∧ pending w2 = []
  ∧ user (st w2) = None
  ∧ items (st w2) = [tag file notes].
Proof. by vm_compute. Qed.

(** [fetch_401_clears_session] at the first fetch of a restored session. *)
Lemma fetch_401_clears_session_witness :
  let w := exec (Settle AwaitProfile (Resolved (Some ann))) mount in
  let err := AxiosError (Some 401) (Some "jwt expired") in
  response_status err = Some 401
  ∧ AwaitFetch Null ∈ pending w
  ∧ (user (st w) = None → items (st w) = [])
  ∧ let w1 := exec (Settle (AwaitFetch Null) (Rejected err)) w in
    let w2 := exec (Settle (AwaitLogout false) (Rejected err)) w1 in
    AwaitLogout false ∈ pending w1
    ∧ Toast Info "Session expired. Please log in again." ∈ out w1
    ∧ user (st w2) = None
    ∧ items (st w2) = [].
Proof.
  assert (AwaitFetch Null
          ∈ pending (exec
                       (Settle AwaitProfile (Resolved (Some ann))) mount)) as Hin.
  { apply (bool_decide_unpack _). by vm_compute. }
  split; [reflexivity|]. split; [exact Hin|]. split; [discriminate|].
  exact (fetch_401_clears_session (rt := codeUnit) Null
           (AxiosError (Some 401) (Some "jwt expired"))
           (Rejected (AxiosError (Some 401) (Some "jwt expired")))
           _ eq_refl Hin (λ H, ltac:(discriminate H))).
Defined.

(** [path_ends_at_current_folder] after going down two folders and up
    one. *)
Lemma path_ends_at_current_folder_witness :
  let w := execs
             (browsing ++ [UI (Navigate (IdNum 1) "docs");
                           UI (Navigate (IdNum 4) "2024");
                           UI (Navigate (IdNum 1) "docs")]) mount in
  reachable w
  ∧ breadcrumbPath (st w) = [root; Crumb.mk (IdNum 1) "docs"]
  ∧ breadcrumbPath (st w) ≠ []
  ∧ Crumb.id <$> last (breadcrumbPath (st w)) = Some (currentFolderId (st w)).
Proof.
  cbn zeta.
  split; [apply reachable_execs, reachable_mount|].
  split; [by vm_compute|].
  apply (path_ends_at_current_folder (rt := codeUnit)).
  apply reachable_execs, reachable_mount.
Defined.

(** C8 does not hold of the fetch of the root: when it fails with 404
    there is the generic error toast and nothing else, no warning and no
    navigation. *)
Lemma root_404_only_reports_failure :
  let w := exec (Settle AwaitProfile (Resolved (Some ann))) mount in
  let w' := exec
              (Settle (AwaitFetch Null) (Rejected (AxiosError (Some 404) None))) w in
  pending w = [AwaitFetch Null]
  ∧ out w' = out w ++ [Toast Error "Failed to fetch items."]
  ∧ bool_decide (Toast Warn "Folder not found, returning to root." ∈ out w') = false
  ∧ pending w' = [].
Proof. by vm_compute. Qed.

(** [fetch_404_falls_back_to_root] when the listing of docs is gone. *)
Lemma fetch_404_falls_back_to_root_witness :
  let err := AxiosError (Some 404) (Some "Folder not found") in
  let w := execs (browsing ++ [UI (Navigate (IdNum 1) "docs")]) mount in
  let w' := run (resume (AwaitFetch (IdNum 1)) (Rejected err)) w in
  response_status err = Some 404
  ∧ currentFolderId (st w) = IdNum 1
  ∧ (IdNum 1 ≠ Null →
       currentFolderId (st w') = Null
       ∧ breadcrumbPath (st w') = [root]
       ∧ out w' = out w ++ [Toast Error "Failed to fetch items.";
                            Toast Warn "Folder not found, returning to root.";
                            Request (GetFolders Null); Request (GetFiles Null)]
       ∧ pending w' = pending w ++ [AwaitFetch Null])
  ∧ (IdNum 1 = Null →
       currentFolderId (st w') = currentFolderId (st w)
       ∧ breadcrumbPath (st w') = breadcrumbPath (st w)
       ∧ out w' = out w ++ [Toast Error "Failed to fetch items."]
       ∧ pending w' = pending w).
Proof.
  cbn zeta. split; [reflexivity|]. split; [by vm_compute|].
  exact (fetch_404_falls_back_to_root (rt := codeUnit) (IdNum 1)
           (AxiosError (Some 404) (Some "Folder not found")) _ eq_refl).
Defined.

(** [breadcrumb_ids_unique] on a walk that revisits a folder and the
    root. *)
Lemma breadcrumb_ids_unique_witness :
  let calls := [(IdNum 1, "docs"); (IdNum 4, "2024"); (IdNum 1, "docs");
                (IdNum 5, "drafts"); (Null, "Root"); (IdNum 2, "pics")] in
  breadcrumbPath (st mount) = [root]
  ∧ NoDup (Crumb.id <$>
             breadcrumbPath
               (st (foldl (λ w c, run (navigateToFolder c.1 c.2) w) mount calls))).
Proof.
  cbn zeta. split; [reflexivity|].
  exact (breadcrumb_ids_unique _ mount eq_refl).
Defined.

(** The hidden file input keeps the [onchange] closure of the render that
    created it.  When a picker was dismissed and the input is used again
    after a navigation, the folder that is fetched after the replacement is
    the one that was open when the input was created, not the one open
    when the replacement was made. *)
Lemma dismissed_picker_refetches_earlier_folder :
  let w := execs dismissed_picker mount in
  feasible dismissed_picker mount = true
  ∧ currentFolderId (st w) = IdNum 1
  ∧ pending w = [AwaitFetch Null].
Proof. by vm_compute. Qed.


(** * Further properties of the component *)

(** Case analysis through a handler, down to the worlds it can leave. *)
Ltac handler_cases := unfold run; step_handler; repeat (innermost_case; cbn).

Ltac unfold_handlers :=
  unfold handleAuth, handleLogout, handleFileUpload, createFolder,
    handleDelete, triggerUpdateFile, handleActualFileUpdate,
    handleLogout_resume, checkAuth_resume, handleAuth_resume,
    handleFileUpload_resume, createFolder_resume, handleDelete_resume,
    handleActualFileUpdate_resume, cleanupFileInput, fetchItems, identifier,
    confirmationMessage.

(** The tasks a computation added, read off the goal. *)
Ltac added_tasks tac :=
  cbn; rewrite <- ?app_assoc; cbn [app];
  first [ exists []; split; [by rewrite app_nil_r|]; tac
        | eexists; split; [reflexivity|]; tac ].

Section Component.

Context {rt : Runtime}.

(** ** Breadcrumbs *)

Lemma navigated_to_entry (p : list Crumb.t) (k : nat) (c : Crumb.t) :
  NoDup (Crumb.id <$> p) → head p = Some root → p !! k = Some c →
  navigated (Crumb.id c) (Crumb.name c) p = take (S k) p.
Proof.
  intros Hnd Hhead Hk.
  assert ((Crumb.id <$> p) !! k = Some (Crumb.id c)) as Hik.
  { by rewrite list_lookup_fmap, Hk. }
  destruct (navigated_cases (Crumb.id c) (Crumb.name c) p)
    as [[Hn ->]|[(Hnn & k' & c' & Hl & Hc & Hfirst & ->)|(Hnn & Hnin & _)]].
  - destruct p as [|r p']; [done|]. cbn in Hhead. injection Hhead as ->.
    assert (k = 0%nat) as ->; [|done].
    eapply (NoDup_lookup _ _ _ _ Hnd); [exact Hik|]. cbn. by rewrite Hn.
  - assert (k' = k) as ->; [|done].
    eapply (NoDup_lookup _ _ _ _ Hnd); [|exact Hik].
    by rewrite list_lookup_fmap, Hl, <- Hc.
  - exfalso. apply Hnin. by eapply list_elem_of_lookup_2.
Qed.

(** X1: what the breadcrumb bar offers in a reachable state.  The last
    entry is a plain label.  Every entry before it is a button, disabled
    while loading; a click while loading does nothing, and a click
    otherwise cuts the path right after that entry, makes its folder the
    current one and starts the fetch of it. *)
Theorem breadcrumb_click_truncates :
  ∀ (w : World) (k : nat) (c : Crumb.t),
    reachable w →
    breadcrumbPath (st w) !! k = Some c →
    let p := breadcrumbPath (st w) in
    let bar := Breadcrumbs p navigateToFolder (isLoading (st w)) in
    (S k = length p → bar !! k = Some (CrumbCurrent (Crumb.name c)))
    ∧ ((S k < length p)%nat →
       ∃ onClick : M unit,
         bar !! k = Some (CrumbLink (Crumb.name c) (isLoading (st w)) onClick)
         ∧ (isLoading (st w) = true → run onClick w = w)
         ∧ (isLoading (st w) = false →
            let w' := run onClick w in
            breadcrumbPath (st w') = take (S k) p
            ∧ currentFolderId (st w') = Crumb.id c
            ∧ pending w' = pending w ++ [AwaitFetch (Crumb.id c)])).
Proof.
  intros w k c Hw Hk p bar.
  destruct (nav_inv_reachable w Hw) as (_ & Hnd & Hhead).
  subst bar p. unfold Breadcrumbs. rewrite list_lookup_imap, Hk.
  cbn [fmap option_fmap option_map].
  set (p := breadcrumbPath (st w)) in *.
  split.
  - intros Hlen. destruct (Z.ltb_spec (Z.of_nat k) (Z.of_nat (length p) - 1));
      [lia|done].
  - intros Hlen. destruct (Z.ltb_spec (Z.of_nat k) (Z.of_nat (length p) - 1));
      [|lia].
    eexists. split; [reflexivity|]. split.
    + intros ->. done.
    + intros ->. cbn [negb when]. cbn zeta.
      rewrite navigateToFolder_run. cbn.
      split; [|done]. by apply navigated_to_entry.
Qed.

(** X2: in every reachable state the breadcrumb path starts with the root
    entry and no two entries carry the same id, whatever requests settled
    in whatever order. *)
Theorem breadcrumbs_rooted_and_unique :
  ∀ w : World,
    reachable w →
    head (breadcrumbPath (st w)) = Some root
    ∧ NoDup (Crumb.id <$> breadcrumbPath (st w))
    ∧ (∀ (k : nat) (c : Crumb.t),
         breadcrumbPath (st w) !! k = Some c → Crumb.id c = Null → k = 0%nat).
Proof.
  intros w Hw. destruct (nav_inv_reachable w Hw) as (_ & Hnd & Hhead).
  split; [done|]. split; [done|].
  intros k c Hk Hc.
  eapply (NoDup_lookup _ _ _ _ Hnd).
  - by rewrite list_lookup_fmap, Hk.
  - destruct (breadcrumbPath (st w)) as [|r p']; [done|].
    cbn in Hhead. injection Hhead as ->. cbn. by rewrite Hc.
Qed.

(** ** What every handler leaves alone *)

Ltac navigation_kept :=
  first [ left; split; reflexivity | right; split; reflexivity ].

Lemma userEffect_navigation : keeps_or_resets_navigation userEffect.
Proof. intros w. unfold userEffect, fetchItems. handler_cases; navigation_kept. Qed.

Lemma handle_navigation e :
  (∀ folderId fName, e ≠ Navigate folderId fName) →
  keeps_or_resets_navigation (handle e).
Proof.
  intros Hne w. destruct e; cbn [handle]; try (by exfalso; eapply Hne).
  all: unfold_handlers.
  all: handler_cases; navigation_kept.
Qed.

Lemma resume_navigation t r : keeps_or_resets_navigation (resume t r).
Proof.
  intros w. destruct t; cbn [resume payload] in *; destruct r as [d|err].
  all: try lazymatch goal with
           | |- context [fetchItems_resume _ (Resolved _)] =>
               rewrite fetchItems_resume_resolved; navigation_kept
           | |- context [fetchItems_resume _ (Rejected _)] =>
               destruct (decide (response_status err = Some 401)) as [H401|H401];
               [ rewrite (fetchItems_resume_401 _ _ _ H401); navigation_kept |];
               destruct (decide (response_status err = Some 404)) as [H404|H404];
               [ destruct (decide (folderId = Null)) as [Hn|Hn];
                 [ rewrite fetchItems_resume_other by auto; navigation_kept
                 | rewrite (fetchItems_resume_404 _ _ _ H404 Hn); navigation_kept ]
               | rewrite fetchItems_resume_other by auto; navigation_kept ]
           end.
  all: unfold_handlers.
  all: handler_cases; navigation_kept.
Qed.

Lemma userEffect_user w : user (st (run userEffect w)) = user (st w).
Proof. unfold userEffect, fetchItems. handler_cases; reflexivity. Qed.

Lemma navigateToFolder_user folderId fName w :
  user (st (run (navigateToFolder folderId fName) w)) = user (st w)
  ∧ isAuthenticating (st (run (navigateToFolder folderId fName) w))
    = isAuthenticating (st w).
Proof. by rewrite navigateToFolder_run. Qed.

Lemma rooted_dispatch m w :
  keeps_or_resets_navigation m →
  rooted_without_user w → rooted_without_user (dispatch m w).
Proof.
  intros Hm Hw. unfold dispatch. cbn zeta. case_bool_decide as Hd.
  - intros Hu. unfold deps in Hd. injection Hd as Hd _.
    rewrite Hd in Hu. destruct (Hm w) as [[-> ->]|[-> ->]]; [by apply Hw|done].
  - intros Hu. rewrite userEffect_user in Hu.
    destruct (userEffect_no_user (run m w) Hu) as [-> _]. done.
Qed.

Lemma rooted_ui_reachable w : ui_reachable w → rooted_without_user w.
Proof.
  induction 1 as [|a w Hw IH Ha]; [done|].
  destruct a as [e|t r]; cbn [exec].
  - destruct e as [v|v|v| | | |f| |v| |folderId fName|item answer|fileId|newFile answer].
    11: { cbn [offered ui_enabled] in Ha. cbn [handle].
         destruct (navigateToFolder_user folderId fName w) as [Hu Hi].
         rewrite dispatch_same_deps by (unfold deps; by rewrite Hu, Hi).
         intros Hnone. rewrite Hu in Hnone. rewrite Hnone in Ha.
         rewrite is_Some_None_false in Ha.
         by rewrite ?andb_false_r in Ha. }
    all: apply rooted_dispatch; [|done]; apply handle_navigation; done.
  - case_bool_decide; [|done].
    apply rooted_dispatch; [apply resume_navigation|done].
Qed.

(** X3: in every run the user can drive (user events offered by the
    rendered tree, requests settling in any order), a state without a
    session is at the root: the current folder is null and the
    breadcrumbs are the root entry alone. *)
Theorem no_session_means_root :
  ∀ w : World,
    ui_reachable w →
    user (st w) = None →
    currentFolderId (st w) = Null ∧ breadcrumbPath (st w) = [root].
Proof. intros w Hw. by apply rooted_ui_reachable. Qed.

(** ** The first authentication check *)

Lemma in_flight_app t l l' :
  in_flight t (l ++ l') = (in_flight t l + in_flight t l')%nat.
Proof. induction l as [|t' l IH]; cbn; [done|]. rewrite IH. lia. Qed.

Lemma in_flight_remove_other t t' l :
  t' ≠ t → in_flight t (remove_first t' l) = in_flight t l.
Proof.
  intros Hne. induction l as [|x l IH]; cbn; [done|].
  case_bool_decide as Hx; cbn.
  - subst x. by rewrite bool_decide_eq_false_2.
  - by rewrite IH.
Qed.

Lemma in_flight_remove_first t l :
  t ∈ l → S (in_flight t (remove_first t l)) = in_flight t l.
Proof.
  induction l as [|x l IH]; intros Hin; [by apply elem_of_nil in Hin|].
  cbn. case_bool_decide as Hx; cbn; [done|].
  apply elem_of_cons in Hin as [->|Hin]; [done|].
  rewrite bool_decide_eq_false_2 by done. specialize (IH Hin). lia.
Qed.

Lemma in_flight_elem_of t l : t ∈ l ↔ (0 < in_flight t l)%nat.
Proof.
  induction l as [|x l IH]; cbn.
  - split; [by intros ?%elem_of_nil|lia].
  - rewrite elem_of_cons, IH. case_bool_decide as Hx.
    + split; [lia|]. intros _. by left.
    + split; [|intros; right; lia]. intros [->|?]; [done|lia].
Qed.

Ltac authenticating_kept :=
  split; [reflexivity|]; added_tasks ltac:(reflexivity).

Lemma userEffect_authenticating : keeps_authenticating userEffect.
Proof. intros w. unfold userEffect, fetchItems. handler_cases; authenticating_kept. Qed.

Lemma handle_authenticating e : keeps_authenticating (handle e).
Proof.
  intros w. destruct e; cbn [handle]; rewrite ?navigateToFolder_run.
  all: unfold_handlers.
  all: handler_cases; authenticating_kept.
Qed.

Lemma resume_authenticating t r :
  t ≠ AwaitProfile → keeps_authenticating (resume t r).
Proof.
  intros Ht w. destruct t; try done; cbn [resume payload] in *;
    destruct r as [d|err].
  all: try lazymatch goal with
           | |- context [fetchItems_resume _ (Resolved _)] =>
               rewrite fetchItems_resume_resolved; authenticating_kept
           | |- context [fetchItems_resume _ (Rejected _)] =>
               destruct (decide (response_status err = Some 401)) as [H401|H401];
               [ rewrite (fetchItems_resume_401 _ _ _ H401); authenticating_kept |];
               destruct (decide (response_status err = Some 404)) as [H404|H404];
               [ destruct (decide (folderId = Null)) as [Hn|Hn];
                 [ rewrite fetchItems_resume_other by auto; authenticating_kept
                 | rewrite (fetchItems_resume_404 _ _ _ H404 Hn);
                   authenticating_kept ]
               | rewrite fetchItems_resume_other by auto; authenticating_kept ]
           end.
  all: unfold_handlers.
  all: handler_cases; authenticating_kept.
Qed.

Lemma checkAuth_resume_run r w :
  isAuthenticating (st (run (checkAuth_resume r) w)) = false
  ∧ pending (run (checkAuth_resume r) w) = pending w
  ∧ out (run (checkAuth_resume r) w) = out w
  ∧ user (st (run (checkAuth_resume r) w))
    = match r with Resolved data => data | Rejected _ => None end.
Proof. destruct r; unfold checkAuth_resume; handler_cases; done. Qed.

Lemma profile_inv_dispatch m w :
  keeps_authenticating m → profile_inv w → profile_inv (dispatch m w).
Proof.
  intros Hm Hw. unfold profile_inv in *.
  destruct (Hm w) as (Hi & new & Hp & Hn).
  unfold dispatch. cbn zeta. case_bool_decide.
  - rewrite Hi, Hp, in_flight_app. lia.
  - destruct (userEffect_authenticating (run m w)) as (Hi' & new' & Hp' & Hn').
    rewrite Hi', Hp', Hi, Hp, !in_flight_app. lia.
Qed.

Lemma profile_inv_reachable w : reachable w → profile_inv w.
Proof.
  induction 1 as [|a w Hw IH]; [done|].
  destruct a as [e|t r]; cbn [exec].
  - apply profile_inv_dispatch; [apply handle_authenticating|done].
  - case_bool_decide as Hin; [|done].
    destruct (decide (t = AwaitProfile)) as [->|Ht].
    + unfold profile_inv in *.
      pose proof (in_flight_remove_first _ _ Hin) as Hrem.
      destruct (isAuthenticating (st w)) eqn:Hauth; [|lia].
      assert (Hz : in_flight AwaitProfile (pending (settled AwaitProfile w)) = 0%nat)
        by (cbn; lia).
      destruct (checkAuth_resume_run r (settled AwaitProfile w))
        as (Hi & Hp & _ & _).
      unfold dispatch. cbn zeta. cbn [resume]. case_bool_decide.
      * by rewrite Hi, Hp, Hz.
      * destruct (userEffect_authenticating
                    (run (checkAuth_resume r) (settled AwaitProfile w)))
          as (Hi' & new' & Hp' & Hn').
        rewrite Hi', Hp', Hi, Hp, in_flight_app, Hz. lia.
    + apply profile_inv_dispatch; [by apply resume_authenticating|].
      unfold profile_inv in *. cbn. by rewrite in_flight_remove_other.
Qed.

(** X4: the loading screen is on exactly while the profile request of the
    first render is in flight, and that request is never in flight twice:
    no handler and no other continuation touches [isAuthenticating] or
    asks for the profile again. *)
Theorem loading_screen_while_checking_session :
  ∀ w : World,
    reachable w →
    (screen (st w) = LoadingScreen ↔ AwaitProfile ∈ pending w)
    ∧ (in_flight AwaitProfile (pending w) ≤ 1)%nat.
Proof.
  intros w Hw. apply profile_inv_reachable in Hw. unfold profile_inv in Hw.
  rewrite in_flight_elem_of, Hw. unfold screen.
  destruct (isAuthenticating (st w)); [split; [split; [lia|done]|lia]|].
  split; [|lia]. split; [|lia]. by case_match.
Qed.

(** ** The busy flag *)

Ltac loading_kept :=
  added_tasks ltac:(first [ left; by auto
                          | right; left; by auto
                          | right; right; reflexivity ]).

Ltac loading_settled :=
  added_tasks ltac:(first [ left; by auto | right; reflexivity ]).

Lemma userEffect_loading : keeps_loading userEffect.
Proof. intros w. unfold userEffect, fetchItems. handler_cases; loading_kept. Qed.

Lemma handle_loading e : keeps_loading (handle e).
Proof.
  intros w. destruct e; cbn [handle]; rewrite ?navigateToFolder_run.
  all: unfold_handlers.
  all: handler_cases; loading_kept.
Qed.

Lemma resume_loading t r :
  loading_task t = false → keeps_loading (resume t r).
Proof.
  intros Ht w. destruct t; try done; cbn [resume payload] in *;
    destruct r as [d|err].
  all: unfold_handlers.
  all: handler_cases; loading_kept.
Qed.

Lemma resume_settles_loading t r :
  loading_task t = true → settles_loading (resume t r).
Proof.
  intros Ht w. destruct t; try done; cbn [resume payload] in *;
    destruct r as [d|err].
  all: try lazymatch goal with
           | |- context [fetchItems_resume _ (Resolved _)] =>
               rewrite fetchItems_resume_resolved; loading_settled
           | |- context [fetchItems_resume _ (Rejected _)] =>
               destruct (decide (response_status err = Some 401)) as [H401|H401];
               [ rewrite (fetchItems_resume_401 _ _ _ H401); loading_settled |];
               destruct (decide (response_status err = Some 404)) as [H404|H404];
               [ destruct (decide (folderId = Null)) as [Hn|Hn];
                 [ rewrite fetchItems_resume_other by auto; loading_settled
                 | rewrite (fetchItems_resume_404 _ _ _ H404 Hn);
                   loading_settled ]
               | rewrite fetchItems_resume_other by auto; loading_settled ]
           end.
  all: unfold_handlers.
  all: handler_cases; loading_settled.
Qed.

Lemma keeps_loading_inv m w :
  keeps_loading m → loading_inv w → loading_inv (run m w).
Proof.
  intros Hm Hw Hl. destruct (Hm w) as (new & Hp & [Hf|[He|Hn]]).
  - congruence.
  - rewrite Hp, existsb_app, Hw; [done|congruence].
  - rewrite Hp, existsb_app, Hn. apply orb_true_r.
Qed.

Lemma settles_loading_inv m w : settles_loading m → loading_inv (run m w).
Proof.
  intros Hm Hl. destruct (Hm w) as (new & Hp & [Hf|Hn]); [congruence|].
  rewrite Hp, existsb_app, Hn. apply orb_true_r.
Qed.

Lemma loading_inv_rendered m w :
  loading_inv (run m w) → loading_inv (dispatch m w).
Proof.
  intros Hm. unfold dispatch. cbn zeta. case_bool_decide; [done|].
  by apply keeps_loading_inv; [apply userEffect_loading|].
Qed.

Lemma existsb_remove_first t l :
  loading_task t = false →
  existsb loading_task (remove_first t l) = existsb loading_task l.
Proof.
  intros Ht. induction l as [|x l IH]; cbn; [done|].
  case_bool_decide as Hx; cbn; [by subst x; rewrite Ht|by rewrite IH].
Qed.

Lemma loading_inv_reachable w : reachable w → loading_inv w.
Proof.
  induction 1 as [|a w Hw IH]; [done|].
  destruct a as [e|t r]; cbn [exec].
  - apply loading_inv_rendered, keeps_loading_inv; [apply handle_loading|done].
  - case_bool_decide as Hin; [|done]. apply loading_inv_rendered.
    destruct (loading_task t) eqn:Ht.
    + by apply settles_loading_inv, resume_settles_loading.
    + apply keeps_loading_inv; [by apply resume_loading|].
      intros Hl. cbn. rewrite existsb_remove_first by done. by apply IH.
Qed.

(** X5: the busy flag never sticks. In every reachable state in which
    [isLoading] is set, a request is in flight whose continuation ends
    with [setIsLoading(false)] (a listing, a sign-in, an upload, a folder
    creation, a deletion or a replacement): the controls that the flag
    disables come back once that request settles. *)
Theorem busy_flag_has_a_request_in_flight :
  ∀ w : World,
    reachable w →
    isLoading (st w) = true →
    ∃ t, t ∈ pending w ∧ loading_task t = true
         ∧ ∀ r, settles_loading (resume t r).
Proof.
  intros w Hw Hl. apply loading_inv_reachable in Hw.
  apply Hw, existsb_exists in Hl as (t & Hin & Ht).
  exists t. split; [by apply list_elem_of_In|]. split; [done|].
  intros r. by apply resume_settles_loading.
Qed.

(** ** The first render *)

Lemma mount_offers_nothing e : ui_enabled e mount = false.
Proof. by destruct e. Qed.

Lemma authenticating_only_at_mount w :
  ui_reachable w → isAuthenticating (st w) = true → w = mount.
Proof.
  induction 1 as [|a w Hw IH Ha]; [done|]. intros Hauth. exfalso.
  assert (Hbefore : isAuthenticating (st w) = true → False).
  { intros Hb. rewrite (IH Hb) in Ha, Hauth. clear IH Hw Hb.
    destruct a as [e|t r]; cbn [offered] in Ha.
    - by rewrite mount_offers_nothing in Ha.
    - apply bool_decide_eq_true_1 in Ha. cbn in Ha.
      apply list_elem_of_singleton in Ha. subst t.
      by destruct r as [[u|]|err]. }
  destruct a as [e|t r]; cbn [exec offered] in *.
  - clear Ha. apply Hbefore. revert Hauth. unfold dispatch. cbn zeta.
    destruct (handle_authenticating e w) as (Hi & _).
    case_bool_decide; [by rewrite Hi|].
    destruct (userEffect_authenticating (run (handle e) w)) as (Hi' & _).
    by rewrite Hi', Hi.
  - rewrite Ha in Hauth. clear Ha. revert Hauth. unfold dispatch. cbn zeta.
    destruct (decide (t = AwaitProfile)) as [->|Ht].
    + destruct (checkAuth_resume_run r (settled AwaitProfile w)) as (Hi & _).
      cbn [resume]. case_bool_decide; [by rewrite Hi|].
      destruct (userEffect_authenticating
                  (run (checkAuth_resume r) (settled AwaitProfile w)))
        as (Hi' & _).
      by rewrite Hi', Hi.
    + destruct (resume_authenticating t r Ht (settled t w)) as (Hi & _).
      change (st (settled t w)) with (st w) in Hi.
      case_bool_decide; [by rewrite Hi|].
      destruct (userEffect_authenticating (run (resume t r) (settled t w)))
        as (Hi' & _).
      by rewrite Hi', Hi.
Qed.

(** X6: the loading screen is the first screen only. In every run the
    user can drive, a state that shows it is the mounted component
    itself: only the profile request has been sent, and no control is
    offered. *)
Theorem loading_screen_only_at_mount :
  ∀ w : World,
    ui_reachable w →
    screen (st w) = LoadingScreen →
    w = mount ∧ out w = [Request GetProfile] ∧ ∀ e, ui_enabled e w = false.
Proof.
  intros w Hw Hs.
  assert (w = mount) as ->.
  { apply authenticating_only_at_mount; [done|].
    unfold screen in Hs. destruct (isAuthenticating (st w)); [done|].
    by case_match. }
  split; [done|]. split; [done|]. apply mount_offers_nothing.
Qed.

(** X7: the reply to the profile request decides the first screen. A
    reply with a user opens the drive view and starts the listing of the
    root; a reply without one, or a failure, opens the login form, with
    no toast and no further request. *)
Theorem first_reply_decides_screen :
  ∀ r : Reply (payload AwaitProfile),
    let w' := exec (Settle AwaitProfile r) mount in
    match r with
    | Resolved (Some u) =>
        screen (st w') = DriveView
        ∧ user (st w') = Some u
        ∧ isLoading (st w') = true
        ∧ out w' = [Request GetProfile; Request (GetFolders Null);
                    Request (GetFiles Null)]
        ∧ pending w' = [AwaitFetch Null]
    | _ =>
        screen (st w') = AuthForm
        ∧ user (st w') = None
        ∧ isLoading (st w') = false
        ∧ out w' = [Request GetProfile]
        ∧ pending w' = []
    end.
Proof. by intros [[u|]|err]. Qed.

(** X8: what the reply to a sign-in or a registration does. A user with
    a truthy id is stored, the success toast names the mode, and the
    three form fields are cleared. In every other case the session and
    the form stay as they are and one error toast is shown: the message
    of the server if it sent one, else the text Authentication failed,
    also when the reply held no valid user. The busy flag is cleared in
    all cases and the continuation itself sends no request. *)
Theorem handleAuth_outcomes :
  ∀ (w : World) (wasLogin : bool) (r : Reply (payload (AwaitAuth wasLogin))),
    let w' := run (resume (AwaitAuth wasLogin) r) w in
    let accepted :=
      match r with
      | Resolved (Some u) => truthy (User.id u)
      | _ => false
      end in
    isLoading (st w') = false
    ∧ pending w' = pending w
    ∧ (if accepted
       then user (st w') = match r with Resolved data => data | _ => None end
            ∧ email (st w') = "" ∧ password (st w') = "" ∧ name (st w') = ""
            ∧ out w' = out w ++ [Toast Success
                                   (if wasLogin then "Login successful!"
                                    else "Registration successful!")]
       else user (st w') = user (st w)
            ∧ email (st w') = email (st w)
            ∧ password (st w') = password (st w)
            ∧ name (st w') = name (st w)
            ∧ out w' = out w ++ [Toast Error
                                   (match r with
                                    | Rejected err =>
                                        message_or err "Authentication failed"
                                    | _ => "Authentication failed"
                                    end)]).
Proof.
  intros w wasLogin [[u|]|err]; cbn [resume]; unfold handleAuth_resume, run;
    step_handler; try done.
  destruct (truthy (User.id u)); cbn; by rewrite <- ?app_assoc.
Qed.

Lemma userEffect_fetches_root w u :
  user (st w) = Some u → isLoading (st w) = false →
  isAuthenticating (st w) = false →
  currentFolderId (st w) = Null → items (st w) = [] →
  run userEffect w = run (fetchItems Null) w.
Proof.
  intros Hu Hl Ha Hc Hi. unfold run, userEffect. step_handler.
  rewrite Hu, Hl, Ha, Hc, Hi.
  rewrite !bool_decide_eq_true_2 by (done || eauto).
  by rewrite (proj2 (strict_eq_true Null Null) eq_refl).
Qed.

(** X9: signing in opens the root. In a run the user can drive, when the
    reply to a sign-in brings a valid user while the login form shows an
    empty list, the drive view is shown at the root and the listing of
    the root is requested by the effect on the user. *)
Theorem sign_in_opens_root :
  ∀ (w : World) (wasLogin : bool) (u : User.t),
    ui_reachable w →
    AwaitAuth wasLogin ∈ pending w →
    user (st w) = None →
    items (st w) = [] →
    truthy (User.id u) = true →
    let w' := exec (Settle (AwaitAuth wasLogin) (Resolved (Some u))) w in
    screen (st w') = DriveView
    ∧ user (st w') = Some u
    ∧ currentFolderId (st w') = Null
    ∧ breadcrumbPath (st w') = [root]
    ∧ isLoading (st w') = true
    ∧ out w' = out w ++ [Toast Success (if wasLogin then "Login successful!"
                                        else "Registration successful!");
                         Request (GetFolders Null); Request (GetFiles Null)]
    ∧ pending w' = remove_first (AwaitAuth wasLogin) (pending w)
                   ++ [AwaitFetch Null].
Proof.
  intros w wasLogin u Hw Hin Hu Hi Ht.
  destruct (rooted_ui_reachable w Hw Hu) as [Hc Hp].
  assert (Ha : isAuthenticating (st w) = false).
  { destruct (isAuthenticating (st w)) eqn:Ha; [|done].
    rewrite (authenticating_only_at_mount w Hw Ha) in Hin.
    cbn in Hin. by apply list_elem_of_singleton in Hin. }
  cbn zeta. cbn [exec]. rewrite bool_decide_eq_true_2 by done.
  set (w0 := settled (AwaitAuth wasLogin) w).
  set (w1 := run (resume (AwaitAuth wasLogin) (Resolved (Some u))) w0).
  assert (Hw1 : w1 = mkWorld
                  (mkState (Some u) false "" "" "" (isLogin (st w)) []
                     (fileToUpload (st w)) (folderName (st w)) false Null [root])
                  (updateFileInputRef w) (fileToUpdateIdRef w)
                  (out w ++ [Toast Success
                               (if wasLogin then "Login successful!"
                                else "Registration successful!")])
                  (remove_first (AwaitAuth wasLogin) (pending w))).
  { subst w1 w0. cbn [resume]. unfold handleAuth_resume, run. step_handler.
    rewrite Ht. cbn. by rewrite Ha, Hi, Hc, Hp. }
  unfold dispatch. cbn zeta. fold w1.
  rewrite bool_decide_eq_false_2
    by (rewrite Hw1; unfold deps; cbn; rewrite Hu; congruence).
  rewrite (userEffect_fetches_root w1 u) by (by rewrite Hw1).
  unfold run. rewrite fetchItems_eq, Hw1. cbn.
  unfold screen. cbn. by rewrite <- app_assoc.
Qed.

(** ** Uploads, folders, deletions, replacements *)

(** X10: a mutation the server rejects changes nothing but the busy flag.
    For an upload, a folder creation, a deletion and a replacement alike,
    the continuation shows one error toast (the message of the server if
    it sent one, else the text of the handler), clears the busy flag,
    sends no request, and leaves the listing, the selected file, the
    typed folder name and the navigation state as they are. *)
Theorem rejected_mutation_only_reports :
  ∀ (w : World) (err : Exn),
    let reports (t : Task) (fallback : string) :=
      let w' := run (resume t (Rejected err)) w in
      out w' = out w ++ [Toast Error (message_or err fallback)]
      ∧ pending w' = pending w
      ∧ isLoading (st w') = false
      ∧ items (st w') = items (st w)
      ∧ fileToUpload (st w') = fileToUpload (st w)
      ∧ folderName (st w') = folderName (st w)
      ∧ currentFolderId (st w') = currentFolderId (st w)
      ∧ breadcrumbPath (st w') = breadcrumbPath (st w) in
    (∀ fileName targetFolderId,
       reports (AwaitUpload fileName targetFolderId) "File upload failed.")
    ∧ (∀ fName targetParentId,
         reports (AwaitCreate fName targetParentId) "Failed to create folder.")
    ∧ (∀ isFolder itemName folderToRefetch,
         reports (AwaitDelete isFolder itemName folderToRefetch)
           ("Failed to delete " +:+ (if isFolder then "Folder" else "File")
            +:+ "."))
    ∧ (∀ folderToRefetch,
         reports (AwaitUpdate folderToRefetch) "Failed to update file.").
Proof.
  intros w err. cbn zeta. repeat split; cbn [resume].
  all: unfold_handlers; unfold run; step_handler; try done.
  all: by destruct (updateFileInputRef w).
Qed.

(** X11: while the busy flag is set, the four guarded handlers do nothing
    at all: a deletion shows no prompt, a replacement creates no hidden
    input, an upload with a file selected and a folder creation with a
    name typed send nothing. The flag is tested after the input: an
    upload without a file and a creation with a blank name (empty, or
    white space only, the no-break space included) still show their
    warning. *)
Theorem busy_handlers_do_nothing :
  ∀ w : World,
    isLoading (st w) = true →
    (∀ item answer, run (handleDelete item answer) w = w)
    ∧ (∀ fileId, run (triggerUpdateFile fileId) w = w)
    ∧ (is_Some (fileToUpload (st w)) → run handleFileUpload w = w)
    ∧ (trim (folderName (st w)) ≠ "" → run createFolder w = w)
    ∧ (fileToUpload (st w) = None →
       out (run handleFileUpload w) = out w ++ [Toast Warn "Please select a file."])
    ∧ (trim (folderName (st w)) = "" →
       out (run createFolder w)
       = out w ++ [Toast Warn "Folder name cannot be empty."]).
Proof.
  intros w Hl. repeat split.
  - intros item answer. unfold handleDelete, run. step_handler.
    by rewrite Hl.
  - intros fileId. unfold triggerUpdateFile, run. step_handler.
    by rewrite Hl.
  - intros [f Hf]. unfold handleFileUpload, run. step_handler.
    by rewrite Hf, Hl.
  - intros Hn. unfold createFolder, run. step_handler.
    by rewrite bool_decide_eq_false_2, Hl.
  - intros Hf. unfold handleFileUpload, run. step_handler. by rewrite Hf.
  - intros Hn. unfold createFolder, run. step_handler.
    by rewrite bool_decide_eq_true_2.
Qed.

(** *** The name of a new folder *)

Lemma trimStart_list_head l c l' :
  trimStart_list l = c :: l' → is_space c = false.
Proof.
  induction l as [|a l IH]; cbn; [done|].
  destruct (is_space a) eqn:Ha; [done|]. by intros [= <- _].
Qed.

Lemma trimStart_list_suffix l : trimStart_list l `suffix_of` l.
Proof.
  induction l as [|a l IH]; cbn; [done|].
  destruct (is_space a); [by apply suffix_cons_r|done].
Qed.

Lemma trimStart_list_fixed c l :
  is_space c = false → trimStart_list (c :: l) = c :: l.
Proof. intros Hc. cbn. by rewrite Hc. Qed.

Lemma last_default_cons {A} (l : list A) c d :
  List.last (c :: l) d = List.last l c.
Proof.
  revert c d. induction l as [|a l IH]; intros c d; [done|].
  change (List.last (c :: a :: l) d) with (List.last (a :: l) d).
  by rewrite !IH.
Qed.

Lemma last_cons_default {A} (c : A) l : last (c :: l) = Some (List.last l c).
Proof.
  revert c. induction l as [|a l IH]; intros c; [done|].
  by rewrite last_cons_cons, IH, last_default_cons.
Qed.

Lemma suffix_last {A} (l1 l2 : list A) x :
  l1 `suffix_of` l2 → last l1 = Some x → last l2 = Some x.
Proof. intros [pre ->] Hx. rewrite last_app, Hx. done. Qed.

Lemma rev_reverse {A} (l : list A) : rev l = reverse l.
Proof.
  induction l as [|a l IH]; [done|]. rewrite reverse_cons. cbn [rev].
  by rewrite IH.
Qed.

Lemma head_rev {A} (l : list A) : head (rev l) = last l.
Proof. rewrite rev_reverse. apply head_reverse. Qed.

Lemma last_rev {A} (l : list A) : last (rev l) = head l.
Proof. rewrite rev_reverse. apply last_reverse. Qed.

(** The two ends of a trimmed list are not white space. *)
Lemma trim_list_ends l :
  let t := rev (trimStart_list (rev (trimStart_list l))) in
  ∀ c, (head t = Some c ∨ last t = Some c) → is_space c = false.
Proof.
  cbn zeta. set (l1 := trimStart_list l).
  set (l2 := trimStart_list (rev l1)). intros c [Hc|Hc].
  - rewrite head_rev in Hc.
    pose proof (suffix_last _ _ _ (trimStart_list_suffix (rev l1)) Hc) as Hl.
    rewrite last_rev in Hl. subst l1.
    destruct (trimStart_list l) as [|b l1'] eqn:Ht; [done|].
    injection Hl as ->. by eapply trimStart_list_head.
  - rewrite last_rev in Hc. subst l2.
    destruct (trimStart_list (rev l1)) as [|b l2'] eqn:Ht; [done|].
    injection Hc as ->. by eapply trimStart_list_head.
Qed.

Lemma trim_trimmed s : trimmed (trim s).
Proof.
  unfold trimmed, trim. rewrite list_ascii_of_string_of_list_ascii.
  pose proof (trim_list_ends (list_ascii_of_string s)) as H. cbn zeta in H.
  destruct (rev _) as [|c l] eqn:Hr; [done|]. split.
  - apply H. by left.
  - apply H. right. apply last_cons_default.
Qed.

Lemma trim_idempotent s : trim (trim s) = trim s.
Proof.
  pose proof (trim_trimmed s) as Ht. unfold trimmed in Ht.
  unfold trim at 1. destruct (list_ascii_of_string (trim s)) as [|c l] eqn:Hl.
  - cbn. rewrite <- (string_of_list_ascii_of_string (trim s)). by rewrite Hl.
  - destruct Ht as [Hc Hlast].
    rewrite trimStart_list_fixed by done.
    destruct (rev (c :: l)) as [|b l'] eqn:Hr.
    { apply (f_equal (@rev ascii)) in Hr. by rewrite rev_involutive in Hr. }
    assert (Hb : is_space b = false).
    { assert (Hlb : last (c :: l) = Some b).
      { by rewrite <- (rev_involutive (c :: l)), Hr, last_rev. }
      rewrite last_cons_default in Hlb. by injection Hlb as <-. }
    rewrite trimStart_list_fixed by done.
    rewrite <- Hr, rev_involutive, <- Hl.
    apply string_of_list_ascii_of_string.
Qed.

Lemma trimStart_list_split l :
  ∃ pre, l = pre ++ trimStart_list l ∧ forallb is_space pre = true.
Proof.
  induction l as [|a l (pre & Hl & Hpre)]; [by exists []|].
  cbn [trimStart_list]. destruct (is_space a) eqn:Ha.
  - exists (a :: pre). cbn. rewrite Ha, Hpre. split; [by f_equal|done].
  - by exists [].
Qed.

Lemma forallb_rev {A} (f : A → bool) l :
  forallb f l = true → forallb f (rev l) = true.
Proof.
  rewrite !forallb_forall. intros H x Hx. apply H. by apply in_rev.
Qed.

Lemma string_of_list_ascii_app l1 l2 :
  string_of_list_ascii (l1 ++ l2)
  = string_of_list_ascii l1 +:+ string_of_list_ascii l2.
Proof. induction l1 as [|a l1 IH]; cbn; [done|]. by rewrite IH. Qed.

(** What [trim] drops is white space, at the two ends. *)
Lemma trim_decomposes s :
  ∃ before after,
    s = before +:+ trim s +:+ after
    ∧ blank before = true ∧ blank after = true.
Proof.
  destruct (trimStart_list_split (list_ascii_of_string s))
    as (pre & Hs & Hpre).
  destruct (trimStart_list_split
              (rev (trimStart_list (list_ascii_of_string s))))
    as (pre' & Hr & Hpre').
  exists (string_of_list_ascii pre), (string_of_list_ascii (rev pre')).
  unfold blank, trim. rewrite !list_ascii_of_string_of_list_ascii.
  split; [|split; [done|by apply forallb_rev]].
  rewrite <- !string_of_list_ascii_app, <- rev_app_distr, <- Hr.
  by rewrite rev_involutive, <- Hs, string_of_list_ascii_of_string.
Qed.

(** X12: the folder name that is posted. With the busy flag clear and a
    name that is not blank, [createFolder] sends one request for the
    trimmed name under the folder that is open. That name is what is
    left of the typed name when the white space at its two ends (the
    no-break space included) is dropped: it is not empty, neither
    starts nor ends with white space, and trimming it again changes
    nothing. When the server accepts, at whatever state the reply
    finds, the toast names the trimmed name, the field is cleared and the
    listing of the folder that was open at the click is requested. *)
Theorem createFolder_posts_trimmed_name :
  ∀ w w' : World,
    isLoading (st w) = false →
    trim (folderName (st w)) ≠ "" →
    let n := trim (folderName (st w)) in
    let parent := currentFolderId (st w) in
    let w1 := run createFolder w in
    let w2 := run (resume (AwaitCreate n parent) (Resolved tt)) w' in
    out w1 = out w ++ [Request (PostFolder n parent)]
    ∧ pending w1 = pending w ++ [AwaitCreate n parent]
    ∧ folderName (st w1) = folderName (st w)
    ∧ (∃ before after,
         folderName (st w) = before +:+ n +:+ after
         ∧ blank before = true ∧ blank after = true)
    ∧ trimmed n ∧ trim n = n
    ∧ out w2 = out w' ++ [Toast Success ("Folder '" +:+ n +:+ "' created.");
                          Request (GetFolders parent);
                          Request (GetFiles parent)]
    ∧ pending w2 = pending w' ++ [AwaitFetch parent]
    ∧ folderName (st w2) = "".
Proof.
  intros w w' Hl Hn. cbn zeta.
  split; [|split; [|split; [|split; [|split; [|split]]]]].
  1-3: unfold createFolder, run; step_handler;
       by rewrite bool_decide_eq_false_2, Hl.
  - apply trim_decomposes.
  - apply trim_trimmed.
  - apply trim_idempotent.
  - cbn [resume]. unfold run, createFolder_resume. step_handler.
    rewrite fetchItems_eq. cbn. by rewrite <- !app_assoc.
Qed.

(** X13: the replacement of a file's content. The change handler of the
    hidden input sends the request exactly when a file was picked, the
    remembered file id is truthy and the user confirms; the busy flag is
    not consulted. In every other case the hidden input is removed, the
    state and the remembered id stay, and nothing is requested. Once the
    request has settled, whatever the reply, the hidden input is gone and
    the remembered id is null. *)
Theorem replacement_flow :
  ∀ (w : World) (capturedFolderId : Id) (newFile : option string)
    (answer : bool),
    let w' := run (handleActualFileUpdate capturedFolderId newFile answer) w in
    let sends :=
      bool_decide (is_Some newFile) && truthy (fileToUpdateIdRef w) && answer in
    (if sends
     then (∃ prompt, out w' = out w ++ [Confirm prompt true;
                                        Request (PutFile (fileToUpdateIdRef w))])
          ∧ pending w' = pending w ++ [AwaitUpdate capturedFolderId]
          ∧ isLoading (st w') = true
          ∧ updateFileInputRef w' = updateFileInputRef w
     else (∀ r, Request r ∈ out w' → Request r ∈ out w)
          ∧ pending w' = pending w
          ∧ st w' = st w
          ∧ updateFileInputRef w' = None)
    ∧ fileToUpdateIdRef w' = fileToUpdateIdRef w
    ∧ ∀ (w0 : World) (r : Reply (payload (AwaitUpdate capturedFolderId))),
        let w1 := run (resume (AwaitUpdate capturedFolderId) r) w0 in
        updateFileInputRef w1 = None ∧ fileToUpdateIdRef w1 = Null.
Proof.
  intros w capturedFolderId newFile answer. cbn zeta. split; [|split].
  - unfold handleActualFileUpdate, cleanupFileInput, run. step_handler.
    destruct newFile as [f|]; cbn;
      [destruct (truthy (fileToUpdateIdRef w)); cbn; [destruct answer; cbn|]|].
    + rewrite <- app_assoc. eauto.
    + destruct (updateFileInputRef w) eqn:Hr; cbn; repeat split; try done.
      all: intros r; rewrite elem_of_app, list_elem_of_singleton;
        by intros [?|?].
    + destruct (updateFileInputRef w) eqn:Hr; cbn; by repeat split.
    + destruct (updateFileInputRef w) eqn:Hr; cbn; by repeat split.
  - unfold handleActualFileUpdate, cleanupFileInput, run. step_handler.
    destruct newFile as [f|]; cbn;
      [destruct (truthy (fileToUpdateIdRef w)); cbn; [destruct answer; cbn|]|].
    all: by destruct (updateFileInputRef w).
  - intros w0 [m|err]; cbn [resume];
      unfold handleActualFileUpdate_resume, cleanupFileInput, fetchItems, run;
      step_handler.
    all: by destruct (updateFileInputRef w0).
Qed.

(** X14: a confirmed deletion. With the busy flag clear and a positive
    answer, [handleDelete] asks, sets the busy flag and sends one request
    to the endpoint of the item's type. When the server accepts, at
    whatever state the reply finds, the toast names the type and the
    item, and the listing of the folder that was open at the click is
    requested. *)
Theorem deletion_refetches_clicked_folder :
  ∀ (w w' : World) (item : Item.t),
    isLoading (st w) = false →
    let isFolder := bool_decide (Item.type item = folder) in
    let clicked := currentFolderId (st w) in
    let w1 := run (handleDelete item true) w in
    let w2 := run (resume (AwaitDelete isFolder (Item.name item) clicked)
                     (Resolved tt)) w' in
    out w1 = out w ++ [Confirm (confirmationMessage isFolder (Item.name item))
                         true;
                       Request (Delete (if isFolder then "folders" else "files")
                                  (Item.id item))]
    ∧ pending w1 = pending w ++ [AwaitDelete isFolder (Item.name item) clicked]
    ∧ isLoading (st w1) = true
    ∧ items (st w1) = items (st w)
    ∧ out w2 = out w' ++ [Toast Success
                            ((if isFolder then "Folder" else "File")
                             +:+ " '" +:+ Item.name item +:+ "' deleted.");
                          Request (GetFolders clicked);
                          Request (GetFiles clicked)]
    ∧ pending w2 = pending w' ++ [AwaitFetch clicked]
    ∧ currentFolderId (st w2) = currentFolderId (st w').
Proof.
  intros w w' item Hl. cbn zeta.
  split; [|split; [|split; [|split]]].
  1-4: unfold handleDelete, run; step_handler; rewrite Hl; cbn;
       by rewrite <- ?app_assoc.
  cbn [resume]. unfold run, handleDelete_resume. step_handler.
  rewrite fetchItems_eq. cbn. by rewrite <- !app_assoc.
Qed.

(** X15: the folder a replacement refetches. The change handler is the
    one of the hidden input, which is created only when none is there:
    the folder it refetches after a successful replacement is the one
    that was open when the input was created. With an input left from a
    dismissed picker that is an earlier folder, not the one open at the
    click. *)
Theorem replacement_refetches_folder_of_input :
  ∀ (w w' : World) (fileId : Id) (newFile : string) (message : option string),
    isLoading (st w) = false →
    truthy fileId = true →
    let captured := default (currentFolderId (st w)) (updateFileInputRef w) in
    let w1 := run (handle (ClickUpdate fileId)) w in
    let w2 := run (handle (PickFile (Some newFile) true)) w1 in
    let w3 := run (resume (AwaitUpdate captured) (Resolved message)) w' in
    updateFileInputRef w1 = Some captured
    ∧ st w1 = st w
    ∧ (∃ prompt, out w2 = out w ++ [Confirm prompt true;
                                    Request (PutFile fileId)])
    ∧ pending w2 = pending w ++ [AwaitUpdate captured]
    ∧ pending w3 = pending w' ++ [AwaitFetch captured]
    ∧ Request (GetFolders captured) ∈ out w3
    ∧ Request (GetFiles captured) ∈ out w3.
Proof.
  intros w w' fileId newFile message Hl Ht. cbn zeta.
  assert (H1 : run (handle (ClickUpdate fileId)) w
               = mkWorld (st w)
                   (Some (default (currentFolderId (st w))
                            (updateFileInputRef w)))
                   fileId (out w) (pending w)).
  { cbn [handle]. unfold triggerUpdateFile, run. step_handler. rewrite Hl.
    cbn. by destruct (updateFileInputRef w). }
  rewrite H1. cbn [updateFileInputRef st].
  split; [done|]. split; [done|].
  change (run (handle (PickFile (Some newFile) true)) ?x)
    with (run (handleActualFileUpdate
                 (default (currentFolderId (st w)) (updateFileInputRef w))
                 (Some newFile) true) x).
  pose proof (handleActualFileUpdate_success_refetches
                (default (currentFolderId (st w)) (updateFileInputRef w))
                message w') as (Hp & Hf1 & Hf2).
  split; [|split; [|by repeat split]].
  - unfold handleActualFileUpdate, run. step_handler. rewrite Ht. cbn.
    rewrite <- app_assoc. eauto.
  - unfold handleActualFileUpdate, run. step_handler. by rewrite Ht.
Qed.

Lemma ui_reachable_execs l w :
  feasible l w = true → ui_reachable w → ui_reachable (execs l w).
Proof.
  revert w. induction l as [|a l IH]; intros w Hf Hw; [done|].
  cbn in Hf. apply andb_true_iff in Hf as [Ha Hf].
  cbn. apply IH; [done|]. constructor; [done|]. by destruct a.
Qed.

End Component.

(** * The table and the download *)

(** X16: the Type and Size cells of a row. A folder row shows Folder and
    a dash. A file row shows the tag itself, in lower case: the
    capitalised fallback is never shown. Its size cell never raises: it
    is a dash without a size, the text for zero bytes at zero, a number
    and one of the five units from one byte on, and for a negative size
    a number followed by the word undefined. *)
Theorem table_cells :
  ∀ (numberText : Number → Z → string) (item : Item.t),
    typeCell item = (if bool_decide (Item.type item = folder)
                     then "Folder" else "file")
    ∧ (Item.type item = folder ∨ Item.size item = None →
       sizeCell numberText item = Normal "-")
    ∧ ∀ size : Z,
        Item.type item = file → Item.size item = Some size →
        (size = 0 → sizeCell numberText item = Normal "0 Bytes")
        ∧ (1 ≤ size →
           ∃ (q : Q) (label : string),
             label ∈ sizes
             ∧ sizeCell numberText item
               = Normal (numberText (Finite q) 2 +:+ " " +:+ label))
        ∧ (size < 0 →
           sizeCell numberText item
           = Normal (numberText NaN 2 +:+ " undefined")).
Proof.
  intros numberText item.
  split; [unfold typeCell; by destruct (Item.type item)|]. split.
  - unfold sizeCell. intros [->|Hs]; [done|]. rewrite Hs.
    by destruct (Item.type item).
  - intros size Hty Hs. unfold sizeCell. rewrite Hty, Hs. repeat split.
    + by intros ->.
    + intros Hge.
      assert (Hq : (1 <= inject_Z size)%Q).
      { unfold Qle. cbn. lia. }
      destruct (floor_log_1024_at_least_one _ Hq) as (z & Hz & Hpos).
      assert (Hnz : is_zero_or_NaN (Finite (inject_Z size)) = false).
      { cbn. apply not_true_is_false. intros H0%Qeq_bool_iff.
        unfold Qeq in H0. cbn in H0. lia. }
      unfold formatBytes. rewrite Hnz, Hz.
      change (default 2 None) with 2. cbn [Z.ltb Z.compare Math_min length sizes].
      change (Z.of_nat 5 - 1) with 4.
      assert (∃ label, sizes !! Z.to_nat (Z.min z 4) = Some label) as [label Hl].
      { apply lookup_lt_is_Some. cbn. lia. }
      exists (inject_Z size / inject_Z 1024 ^ Z.min z 4)%Q, label.
      split; [by eapply list_elem_of_lookup_2|].
      cbn [element scaled].
      destruct (Z.leb_spec 0 (Z.min z 4)); [|lia]. by rewrite Hl.
    + intros Hneg. unfold formatBytes.
      assert (Hnz : is_zero_or_NaN (Finite (inject_Z size)) = false).
      { cbn. apply not_true_is_false. intros H0%Qeq_bool_iff.
        unfold Qeq in H0. cbn in H0. lia. }
      assert (Hlog : floor_log_1024 (Finite (inject_Z size)) = INaN).
      { cbn [floor_log_1024].
        assert (Hlt : (inject_Z size < 0)%Q) by (unfold Qlt; cbn; lia).
        by rewrite (proj1 (Qlt_alt _ _) Hlt). }
      by rewrite Hnz, Hlog.
Qed.

(** ** The regular expression of [downloadFile] *)

Lemma strip_prefix_app p s : strip_prefix p (p ++ s) = Some s.
Proof.
  induction p as [|a p IH]; cbn; [done|]. by rewrite Ascii.eqb_refl.
Qed.

(** The greedy star takes the whole run when what follows then matches. *)
Lemma star_greedy_all cls k run rest r :
  Forall (λ c, cls c = true) run →
  match rest with [] => True | c :: _ => cls c = false end →
  k rest = Some r →
  star true cls k (run ++ rest) = Some r.
Proof.
  intros Hrun Hrest Hk. induction Hrun as [|c run Hc _ IH]; cbn.
  - destruct rest as [|c rest]; [done|]. cbn. by rewrite Hrest.
  - by rewrite Hc, IH.
Qed.

(** The lazy star passes the characters at which what follows fails. *)
Lemma star_lazy_skip cls k run rest :
  Forall (λ c, cls c = true ∧ ∀ s, k (c :: s) = None) run →
  star false cls k (run ++ rest) = star false cls k rest.
Proof.
  intros Hrun. induction Hrun as [|c run [Hc Hk] _ IH]; cbn; [done|].
  by rewrite Hc, Hk, IH.
Qed.

Lemma exec_regex_here r s caps :
  matches r s (λ _, None) (λ _ caps, Some caps) = Some caps →
  exec_regex r s = Some caps.
Proof. intros H. destruct s; cbn; by rewrite H. Qed.

(** No match starts at a character other than the first of the word. *)
Lemma exec_filenameRegex_skip pre s :
  Forall (λ c, c ≠ "f"%char) pre →
  exec_regex filenameRegex (pre ++ s) = exec_regex filenameRegex s.
Proof.
  intros Hpre. induction Hpre as [|c pre Hc _ IH]; [done|].
  cbn [app exec_regex]. rewrite IH.
  assert (Hf : Ascii.eqb "f" c = false).
  { apply Ascii.eqb_neq. congruence. }
  unfold filenameRegex. cbn [matches list_ascii_of_string strip_prefix].
  by rewrite Hf.
Qed.

Lemma take_length_app_diff {A} (l l' : list A) :
  take (length (l ++ l') - length l') (l ++ l') = l.
Proof.
  rewrite length_app.
  replace (length l + length l' - length l')%nat with (length l) by lia.
  by rewrite take_app_length.
Qed.


Lemma forallb_Forall {A} (f : A → bool) l :
  forallb f l = true → Forall (λ c, f c = true) l.
Proof.
  induction l as [|a l IH]; cbn; [by constructor|].
  intros [Ha Hl]%andb_true_iff. constructor; auto.
Qed.

Lemma quote_class_dot q : quote_class q = true → dot q = true.
Proof.
  unfold quote_class, is_char.
  intros [<-%Ascii.eqb_eq| <-%Ascii.eqb_eq]%orb_true_iff; reflexivity.
Qed.

(** The quoted form: the text up to the next quote of the same kind. *)
Lemma matches_quotedValue q text tail caps k r :
  quote_class q = true →
  forallb (λ c, dot c && negb (is_char q c)) text = true →
  k tail (capture 2 text (capture 1 [q] caps)) = Some r →
  matches quotedValue (q :: text ++ q :: tail) caps k = Some r.
Proof.
  intros Hq Htext Hk. unfold quotedValue. cbn [matches]. rewrite Hq.
  replace (length (q :: text ++ q :: tail) - length (text ++ q :: tail))%nat
    with 1%nat by (cbn [length]; lia).
  change (take 1 (q :: text ++ q :: tail)) with [q].
  rewrite star_lazy_skip.
  - cbn [star]. rewrite (quote_class_dot q Hq).
    change (capture 2 ?t (capture 1 [q] caps) 1%nat) with (Some [q]).
    cbn [strip_prefix]. rewrite Ascii.eqb_refl.
    by rewrite take_length_app_diff, Hk.
  - apply forallb_Forall in Htext. eapply Forall_impl; [exact Htext|].
    cbn beta. intros c [Hd Hc]%andb_true_iff. split; [done|]. intros s.
    change (capture 2 ?t (capture 1 [q] caps) 1%nat) with (Some [q]).
    cbn [strip_prefix]. unfold is_char in Hc.
    by rewrite (proj1 (negb_true_iff _) Hc).
Qed.

(** The quoted form needs a quote. *)
Lemma matches_quotedValue_none s caps k :
  match s with [] => True | c :: _ => quote_class c = false end →
  matches quotedValue s caps k = None.
Proof.
  intros Hs. unfold quotedValue. cbn [matches].
  destruct s as [|c s]; [done|]. by rewrite Hs.
Qed.

(** The bare form: the text up to the next semicolon or line feed. *)
Lemma matches_bareValue text tail caps k r :
  forallb not_semi_nl text = true →
  match tail with [] => True | c :: _ => not_semi_nl c = false end →
  k tail (capture 3 text caps) = Some r →
  matches bareValue (text ++ tail) caps k = Some r.
Proof.
  intros Htext Htail Hk. unfold bareValue. cbn [matches].
  apply star_greedy_all; [by apply forallb_Forall|done|].
  by rewrite take_length_app_diff.
Qed.

(** From the word to the value. *)
Lemma matches_filenameRegex ext value caps k r :
  forallb not_semi_eq_nl ext = true →
  matches (RAlt quotedValue bareValue) value caps k = Some r →
  matches filenameRegex
    (list_ascii_of_string "filename" ++ ext ++ "="%char :: value) caps k
  = Some r.
Proof.
  intros Hext Hv. unfold filenameRegex.
  cbn [matches]. rewrite strip_prefix_app.
  apply star_greedy_all; [by apply forallb_Forall|done|].
  cbn [matches list_ascii_of_string strip_prefix].
  by rewrite Ascii.eqb_refl.
Qed.

Lemma effectiveFilename_found header fileName groups :
  header ≠ [] →
  exec_regex filenameRegex header = Some groups →
  effectiveFilename (Some (string_of_list_ascii header)) fileName
  = match group_text groups 2 with
    | Some f1 => f1
    | None => default fileName (group_text groups 3)
    end.
Proof.
  intros Hne Hex. unfold effectiveFilename.
  rewrite bool_decide_eq_false_2.
  - by rewrite list_ascii_of_string_of_list_ascii, Hex.
  - intros Hempty. apply Hne.
    by rewrite <- (list_ascii_of_string_of_list_ascii header), Hempty.
Qed.

(** X17: a quoted file name in the header. When the header holds the
    word filename (at its first occurrence of the letter f), an equals
    sign and a value in single or double quotes that has no line break
    and no quote of that kind inside, the download is saved under the
    text between the quotes; under the name of the item when there is
    nothing between them. *)
Theorem quoted_filename_is_unquoted :
  ∀ (before ext text after : list ascii) (q : ascii) (fileName : string),
    forallb (λ c, negb (is_char "f" c)) before = true →
    forallb not_semi_eq_nl ext = true →
    quote_class q = true →
    forallb (λ c, dot c && negb (is_char q c)) text = true →
    effectiveFilename
      (Some (string_of_list_ascii
               (before ++ list_ascii_of_string "filename" ++ ext
                ++ "="%char :: q :: text ++ q :: after)))
      fileName
    = match text with
      | [] => fileName
      | _ => string_of_list_ascii text
      end.
Proof.
  intros before ext text after q fileName Hb He Hq Ht.
  rewrite (effectiveFilename_found _ _
             (capture 2 text (capture 1 [q] (λ _, None)))).
  - unfold group_text, capture. cbn. by destruct text.
  - by destruct before.
  - rewrite exec_filenameRegex_skip.
    + apply exec_regex_here, matches_filenameRegex; [done|].
      cbn [matches]. by erewrite matches_quotedValue.
    + apply forallb_Forall in Hb. eapply Forall_impl; [exact Hb|].
      cbn beta. unfold is_char. intros c Hc%negb_true_iff%Ascii.eqb_neq.
      congruence.
Qed.

(** X18: a file name without quotes. When the value after the equals
    sign does not start with a quote, the download is saved under the
    whole value up to the next semicolon or line feed, as it stands;
    under the name of the item when the value is empty. What stands
    between the word filename and the equals sign plays no part, so the
    value of an extended parameter (with an asterisk) is taken with its
    charset prefix and its percent escapes. *)
Theorem bare_filename_is_verbatim :
  ∀ (before ext text after : list ascii) (fileName : string),
    forallb (λ c, negb (is_char "f" c)) before = true →
    forallb not_semi_eq_nl ext = true →
    forallb not_semi_nl text = true →
    match text with [] => true | c :: _ => negb (quote_class c) end = true →
    match after with [] => true | c :: _ => negb (not_semi_nl c) end = true →
    effectiveFilename
      (Some (string_of_list_ascii
               (before ++ list_ascii_of_string "filename" ++ ext
                ++ "="%char :: text ++ after)))
      fileName
    = match text with
      | [] => fileName
      | _ => string_of_list_ascii text
      end.
Proof.
  intros before ext text after fileName Hb He Ht Hhead Hafter.
  rewrite (effectiveFilename_found _ _ (capture 3 text (λ _, None))).
  - unfold group_text, capture. cbn. by destruct text.
  - by destruct before.
  - rewrite exec_filenameRegex_skip.
    + apply exec_regex_here, matches_filenameRegex; [done|].
      cbn [matches]. rewrite matches_quotedValue_none.
      * by erewrite matches_bareValue;
          [| |destruct after as [|c ?]; [done|by apply negb_true_iff]|].
      * destruct text as [|c text]; cbn [app].
        -- destruct after as [|c after]; [done|].
           apply negb_true_iff in Hafter. revert Hafter.
           unfold not_semi_nl, quote_class, is_char.
           intros [<-%Ascii.eqb_eq| <-%Ascii.eqb_eq]%negb_false_iff%orb_true_iff;
             reflexivity.
        -- by apply negb_true_iff.
    + apply forallb_Forall in Hb. eapply Forall_impl; [exact Hb|].
      cbn beta. unfold is_char. intros c Hc%negb_true_iff%Ascii.eqb_neq.
      congruence.
Qed.

(** X19: the download always has a name. Whatever the header holds, the
    name the file is saved under is not empty when the name of the item
    is not: an empty capture falls through to the next operand. *)
Theorem effectiveFilename_not_empty :
  ∀ (contentDisposition : option string) (fileName : string),
    fileName ≠ "" →
    effectiveFilename contentDisposition fileName ≠ "".
Proof.
  intros contentDisposition fileName Hne. unfold effectiveFilename.
  destruct contentDisposition as [header|]; [|done].
  case_bool_decide; [done|].
  destruct (exec_regex _ _) as [groups|]; [|done].
  unfold group_text.
  destruct (groups 2%nat) as [[|c text]|]; cbn;
    try (destruct (groups 3%nat) as [[|c' text']|]); cbn; try done.
Qed.

(** * Further concrete runs *)

Lemma breadcrumb_click_truncates_witness :
  let w := execs two_levels_down mount in
  let docs_crumb := Crumb.mk (IdNum 1) "docs" in
  reachable w
  ∧ breadcrumbPath (st w) !! 1%nat = Some docs_crumb
  ∧ ∃ onClick,
      Breadcrumbs (breadcrumbPath (st w)) navigateToFolder (isLoading (st w))
        !! 1%nat
      = Some (CrumbLink "docs" false onClick)
      ∧ breadcrumbPath (st (run onClick w)) = [root; docs_crumb]
      ∧ pending (run onClick w) = [AwaitFetch (IdNum 1)].
Proof.
  cbn zeta.
  assert (Hr : reachable (execs two_levels_down mount))
    by apply reachable_execs, reachable_mount.
  split; [exact Hr|]. split; [by vm_compute|].
  destruct (breadcrumb_click_truncates (rt := codeUnit) _ 1%nat
              (Crumb.mk (IdNum 1) "docs") Hr ltac:(by vm_compute))
    as [_ Hlink].
  destruct Hlink as (onClick & Hbar & _ & Hidle); [vm_compute; lia|].
  exists onClick. split; [exact Hbar|].
  destruct (Hidle ltac:(by vm_compute)) as (Hp & _ & Hpend).
  split; [exact Hp|exact Hpend].
Defined.

Lemma breadcrumbs_rooted_and_unique_witness :
  let w := execs two_levels_down mount in
  reachable w
  ∧ head (breadcrumbPath (st w)) = Some root
  ∧ NoDup (Crumb.id <$> breadcrumbPath (st w))
  ∧ (∀ (k : nat) (c : Crumb.t),
       breadcrumbPath (st w) !! k = Some c → Crumb.id c = Null → k = 0%nat).
Proof.
  cbn zeta.
  assert (Hr : reachable (execs two_levels_down mount))
    by apply reachable_execs, reachable_mount.
  split; [exact Hr|].
  exact (breadcrumbs_rooted_and_unique (rt := codeUnit) _ Hr).
Defined.

Lemma no_session_means_root_witness :
  let w := execs (overlapping ++ [UI (TypeEmail "ann@example.org")]) mount in
  ui_reachable w
  ∧ user (st w) = None
  ∧ currentFolderId (st w) = Null
  ∧ breadcrumbPath (st w) = [root].
Proof.
  cbn zeta.
  assert (Hr : ui_reachable
                 (execs (overlapping ++ [UI (TypeEmail "ann@example.org")])
                    mount))
    by (apply ui_reachable_execs; [by vm_compute|constructor]).
  split; [exact Hr|]. split; [by vm_compute|].
  exact (no_session_means_root (rt := codeUnit) _ Hr ltac:(by vm_compute)).
Defined.

Lemma loading_screen_while_checking_session_witness :
  let w := execs signing_in mount in
  reachable w
  ∧ (screen (st w) = LoadingScreen ↔ AwaitProfile ∈ pending w)
  ∧ (in_flight AwaitProfile (pending w) ≤ 1)%nat.
Proof.
  cbn zeta.
  assert (Hr : reachable (execs signing_in mount))
    by apply reachable_execs, reachable_mount.
  split; [exact Hr|].
  exact (loading_screen_while_checking_session (rt := codeUnit) _ Hr).
Defined.

Lemma busy_flag_has_a_request_in_flight_witness :
  let w := execs signing_in mount in
  reachable w
  ∧ isLoading (st w) = true
  ∧ ∃ t, t ∈ pending w ∧ loading_task t = true
         ∧ ∀ r, settles_loading (resume t r).
Proof.
  cbn zeta.
  assert (Hr : reachable (execs signing_in mount))
    by apply reachable_execs, reachable_mount.
  split; [exact Hr|]. split; [by vm_compute|].
  exact (busy_flag_has_a_request_in_flight (rt := codeUnit) _ Hr
           ltac:(by vm_compute)).
Defined.

Lemma loading_screen_only_at_mount_witness :
  ui_reachable mount
  ∧ screen (st mount) = LoadingScreen
  ∧ out mount = [Request GetProfile]
  ∧ ∀ e, ui_enabled e mount = false.
Proof.
  assert (Hr : ui_reachable mount) by constructor.
  split; [exact Hr|]. split; [by vm_compute|].
  exact (proj2 (loading_screen_only_at_mount (rt := codeUnit) mount Hr
                  ltac:(by vm_compute))).
Defined.

Lemma sign_in_opens_root_witness :
  let w := execs signing_in mount in
  let w' := exec (Settle (AwaitAuth true) (Resolved (Some ann))) w in
  ui_reachable w
  ∧ AwaitAuth true ∈ pending w
  ∧ screen (st w') = DriveView
  ∧ user (st w') = Some ann
  ∧ pending w' = [AwaitFetch Null].
Proof.
  cbn zeta.
  assert (Hr : ui_reachable (execs signing_in mount))
    by (apply ui_reachable_execs; [by vm_compute|constructor]).
  assert (Hin : AwaitAuth true ∈ pending (execs signing_in mount))
    by (vm_compute; apply list_elem_of_here).
  split; [exact Hr|]. split; [exact Hin|].
  destruct (sign_in_opens_root (rt := codeUnit) _ true ann Hr Hin
              ltac:(by vm_compute) ltac:(by vm_compute) ltac:(by vm_compute))
    as (Hs & Hu & _ & _ & _ & _ & Hp).
  split; [exact Hs|]. split; [exact Hu|exact Hp].
Defined.

Lemma busy_handlers_do_nothing_witness :
  let w := execs blank_name_while_busy mount in
  isLoading (st w) = true
  ∧ folderName (st w) = String nbsp " "
  ∧ (∀ item answer, run (handleDelete item answer) w = w)
  ∧ out (run createFolder w)
    = out w ++ [Toast Warn "Folder name cannot be empty."].
Proof.
  cbn zeta. split; [by vm_compute|]. split; [by vm_compute|].
  destruct (busy_handlers_do_nothing (execs blank_name_while_busy mount)
              ltac:(by vm_compute))
    as (Hdelete & _ & _ & _ & _ & Hblank).
  split; [exact Hdelete|]. exact (Hblank ltac:(by vm_compute)).
Defined.

Lemma createFolder_posts_trimmed_name_witness :
  let w := execs naming_a_folder mount in
  folderName (st w) = padded_name
  ∧ isLoading (st w) = false
  ∧ out (run createFolder w) = out w ++ [Request (PostFolder "drafts" Null)]
  ∧ trimmed "drafts".
Proof.
  cbn zeta. split; [by vm_compute|]. split; [by vm_compute|].
  destruct (createFolder_posts_trimmed_name (execs naming_a_folder mount)
              mount ltac:(by vm_compute) ltac:(by vm_compute))
    as (Ho & _ & _ & _ & Ht & _).
  split; [exact Ho|exact Ht].
Defined.

Lemma deletion_refetches_clicked_folder_witness :
  let w := execs two_levels_down mount in
  let w1 := run (handleDelete (tag file todo) true) w in
  isLoading (st w) = false
  ∧ pending w1 = [AwaitDelete false "todo.txt" (IdNum 4)]
  ∧ pending (run (resume (AwaitDelete false "todo.txt" (IdNum 4))
                    (Resolved tt)) mount)
    = pending mount ++ [AwaitFetch (IdNum 4)].
Proof.
  cbn zeta. split; [by vm_compute|].
  destruct (deletion_refetches_clicked_folder (rt := codeUnit)
              (execs two_levels_down mount) mount (tag file todo)
              ltac:(by vm_compute))
    as (_ & Hp & _ & _ & _ & Hp' & _).
  split; [exact Hp|exact Hp'].
Defined.

Lemma replacement_refetches_folder_of_input_witness :
  let w := execs picker_left_behind mount in
  let w2 := run (handle (PickFile (Some "todo-v2.txt") true))
              (run (handle (ClickUpdate (IdNum 8))) w) in
  isLoading (st w) = false
  ∧ currentFolderId (st w) = IdNum 1
  ∧ updateFileInputRef w = Some Null
  ∧ pending w2 = [AwaitUpdate Null].
Proof.
  cbn zeta. split; [by vm_compute|]. split; [by vm_compute|].
  split; [by vm_compute|].
  destruct (replacement_refetches_folder_of_input (rt := codeUnit)
              (execs picker_left_behind mount) mount (IdNum 8) "todo-v2.txt"
              None ltac:(by vm_compute) ltac:(by vm_compute))
    as (_ & _ & _ & Hp & _).
  exact Hp.
Defined.

Lemma quoted_filename_is_unquoted_witness :
  effectiveFilename (Some "attachment; filename='report 2024.pdf'; size=3")
    "download"
  = "report 2024.pdf".
Proof.
  exact (quoted_filename_is_unquoted
           (list_ascii_of_string "attachment; ") []
           (list_ascii_of_string "report 2024.pdf")
           (list_ascii_of_string "; size=3") "'" "download"
           eq_refl eq_refl eq_refl eq_refl).
Defined.

Lemma bare_filename_is_verbatim_witness :
  effectiveFilename (Some "attachment; filename*=UTF-8''na%20me.txt; size=3")
    "download"
  = "UTF-8''na%20me.txt".
Proof.
  exact (bare_filename_is_verbatim
           (list_ascii_of_string "attachment; ") (list_ascii_of_string "*")
           (list_ascii_of_string "UTF-8''na%20me.txt")
           (list_ascii_of_string "; size=3") "download"
           eq_refl eq_refl eq_refl eq_refl eq_refl).
Defined.

Lemma effectiveFilename_not_empty_witness :
  "notes.txt" ≠ ""
  ∧ effectiveFilename (Some "attachment; filename=") "notes.txt" ≠ "".
Proof.
  assert (H : "notes.txt" ≠ "") by done.
  split; [exact H|].
  exact (effectiveFilename_not_empty (Some "attachment; filename=")
           "notes.txt" H).
Defined.
